(** * Verification of the Gmail tool server: confirmation-token protocol,
      folder-label reconciliation and the Google authentication middleware.

    Python strings are modelled as Rocq [string]s holding their UTF-8
    bytes, so [str.encode()] is the identity and [bytes.decode()] is a
    UTF-8 validity check.  Wall-clock time ([time.time()]) is an integer
    number of microseconds. *)

From Stdlib Require Import ZArith String Ascii Lia.
From Stdlib Require Import DecimalString DecimalZ DecimalPos.
From stdpp Require Import base gmap sets list strings.

Set Warnings "-register-all".
Local Open Scope Z_scope.

(* ------------------------------------------------------------------ *)
(** ** Python runtime: values, dictionaries, exceptions *)

Module Py.

Inductive pyval : Type :=
  | PStr (s : string)
  | PInt (z : Z)
  | PList (l : list pyval)
  | PDict (d : list (string * pyval)).

(** A dict literal, in insertion order. *)
Definition pydict := list (string * pyval).

Definition has_key (k : string) (d : pydict) : bool :=
  existsb (fun kv => String.eqb kv.1 k) d.

Definition get_key (k : string) (d : pydict) : option pyval :=
  match List.find (fun kv => String.eqb kv.1 k) d with
  | Some kv => Some kv.2
  | None => None
  end.

(** Raised Python exceptions, by class. *)
Inductive exn : Type :=
  | HttpError (reason : string)
  | ValueError
  | KeyError (k : string)
  | TypeError
  | OtherError (msg : string).

Inductive result (A : Type) : Type :=
  | Ok (a : A)
  | Raise (e : exn).
Arguments Ok {A} a.
Arguments Raise {A} e.

Definition is_ascii_space (c : ascii) : bool :=
  let n := nat_of_ascii c in ((9 <=? n) && (n <=? 13))%nat || (n =? 32)%nat.

Fixpoint lstrip (s : string) : string :=
  match s with
  | EmptyString => EmptyString
  | String c r => if is_ascii_space c then lstrip r else s
  end.

Fixpoint rstrip (s : string) : string :=
  match s with
  | EmptyString => EmptyString
  | String c r =>
      let r' := rstrip r in
      if String.eqb r' EmptyString && is_ascii_space c then EmptyString
      else String c r'
  end.

Definition strip (s : string) : string := rstrip (lstrip s).

(** [str.split(sep)] with a one-character separator. *)
Fixpoint split (sep : ascii) (s : string) : list string :=
  match s with
  | EmptyString => [EmptyString]
  | String c r =>
      match split sep r with
      | [] => [String c EmptyString]
      | w :: ws => if Ascii.eqb c sep then EmptyString :: w :: ws
                   else String c w :: ws
      end
  end.

(** [c in s] *)
Definition contains (c : ascii) (s : string) : bool :=
  existsb (Ascii.eqb c) (list_ascii_of_string s).

(** [s.count(c)] *)
Definition count_char (c : ascii) (s : string) : nat :=
  List.length (List.filter (Ascii.eqb c) (list_ascii_of_string s)).

(** [str(n)] / f-string formatting of an [int]. *)
Definition str_of_int (n : Z) : string :=
  NilEmpty.string_of_int (Z.to_int n).

(** Digits of [int(s)], with single underscores allowed between digits. *)
Fixpoint int_digits (s : string) : option Decimal.uint :=
  match s with
  | EmptyString => None
  | String c rest =>
      match rest with
      | EmptyString => uint_of_char c (Some Decimal.Nil)
      | String u rest' =>
          if Ascii.eqb u "_"%char then
            match int_digits rest' with
            | Some d => uint_of_char c (Some d)
            | None => None
            end
          else
            match int_digits rest with
            | Some d => uint_of_char c (Some d)
            | None => None
            end
      end
  end.

(** [int(s)] for a [str] argument: [None] is the [ValueError]. *)
Definition int_of_str (s : string) : option Z :=
  match strip s with
  | String c r =>
      if Ascii.eqb c "-"%char then option_map (fun d => Z.of_int (Decimal.Neg d)) (int_digits r)
      else if Ascii.eqb c "+"%char then option_map (fun d => Z.of_int (Decimal.Pos d)) (int_digits r)
      else option_map (fun d => Z.of_int (Decimal.Pos d)) (int_digits (String c r))
  | EmptyString => None
  end.

(** [bytes.decode()] (UTF-8, strict): the bytes are returned unchanged
    when they are well-formed UTF-8. *)
Definition byte_in (c : ascii) (lo hi : nat) : bool :=
  let n := nat_of_ascii c in ((lo <=? n) && (n <=? hi))%nat.

Fixpoint utf8_valid (s : string) : bool :=
  match s with
  | EmptyString => true
  | String c r =>
      let n := nat_of_ascii c in
      if (n <? 128)%nat then utf8_valid r
      else if ((194 <=? n) && (n <=? 223))%nat then
        match r with
        | String c1 r1 => byte_in c1 128 191 && utf8_valid r1
        | _ => false
        end
      else if ((224 <=? n) && (n <=? 239))%nat then
        match r with
        | String c1 (String c2 r2) =>
            byte_in c1 (if (n =? 224)%nat then 160 else 128)
                       (if (n =? 237)%nat then 159 else 191)
            && byte_in c2 128 191 && utf8_valid r2
        | _ => false
        end
      else if ((240 <=? n) && (n <=? 244))%nat then
        match r with
        | String c1 (String c2 (String c3 r3)) =>
            byte_in c1 (if (n =? 240)%nat then 144 else 128)
                       (if (n =? 244)%nat then 143 else 191)
            && byte_in c2 128 191 && byte_in c3 128 191 && utf8_valid r3
        | _ => false
        end
      else false
  end.

Definition utf8_decode (s : string) : option string :=
  if utf8_valid s then Some s else None.

End Py.

(* ------------------------------------------------------------------ *)
(** ** [base64.b64encode] / [base64.b64decode] (CPython's binascii) *)

Module Base64.

Definition alphabet : string :=
  "ABCDEFGHIJKLMNOPQRSTUVWXYZabcdefghijklmnopqrstuvwxyz0123456789+/".

Definition ord (c : ascii) : Z := Z.of_nat (nat_of_ascii c).
Definition chr (z : Z) : ascii := ascii_of_nat (Z.to_nat z).

Definition table_b2a (i : Z) : ascii :=
  match String.get (Z.to_nat i) alphabet with
  | Some c => c
  | None => "="%char
  end.

Fixpoint index_in (c : ascii) (s : string) (i : Z) : option Z :=
  match s with
  | EmptyString => None
  | String d r => if Ascii.eqb c d then Some i else index_in c r (i + 1)
  end.

(** [table_a2b_base64]: [None] for the characters outside the alphabet. *)
Definition table_a2b (c : ascii) : option Z := index_in c alphabet 0.

(** [binascii.b2a_base64] without the trailing newline. *)
Fixpoint b2a (s : string) : string :=
  match s with
  | String a (String b (String c rest)) =>
      let a := ord a in let b := ord b in let c := ord c in
      String (table_b2a (Z.shiftr a 2))
        (String (table_b2a (Z.lor (Z.shiftl (Z.land a 3) 4) (Z.shiftr b 4)))
          (String (table_b2a (Z.lor (Z.shiftl (Z.land b 15) 2) (Z.shiftr c 6)))
            (String (table_b2a (Z.land c 63)) (b2a rest))))
  | String a (String b EmptyString) =>
      let a := ord a in let b := ord b in
      String (table_b2a (Z.shiftr a 2))
        (String (table_b2a (Z.lor (Z.shiftl (Z.land a 3) 4) (Z.shiftr b 4)))
          (String (table_b2a (Z.shiftl (Z.land b 15) 2)) (String "=" EmptyString)))
  | String a EmptyString =>
      let a := ord a in
      String (table_b2a (Z.shiftr a 2))
        (String (table_b2a (Z.shiftl (Z.land a 3) 4)) (String "=" (String "=" EmptyString)))
  | EmptyString => EmptyString
  end.

Definition b64encode (s : string) : string := b2a s.

(** The main loop of [binascii.a2b_base64] with [strict_mode=False]:
    characters outside the alphabet are skipped, a complete padding
    sequence ends the parse, and leftover data bits after the last
    character are an [Incorrect padding] error ([None]). *)
Fixpoint a2b_loop (s : string) (quad_pos : nat) (leftchar : Z) (pads : nat)
  : option string :=
  match s with
  | EmptyString => if (quad_pos =? 0)%nat then Some EmptyString else None
  | String ch s' =>
      if Ascii.eqb ch "="%char then
        if (2 <=? quad_pos)%nat then
          if (4 <=? quad_pos + S pads)%nat then Some EmptyString
          else a2b_loop s' quad_pos leftchar (S pads)
        else a2b_loop s' quad_pos leftchar pads
      else
        match table_a2b ch with
        | None => a2b_loop s' quad_pos leftchar pads
        | Some v =>
            match quad_pos with
            | O => a2b_loop s' 1 v O
            | 1%nat =>
                option_map (String (chr (Z.land (Z.lor (Z.shiftl leftchar 2) (Z.shiftr v 4)) 255)))
                  (a2b_loop s' 2 (Z.land v 15) O)
            | 2%nat =>
                option_map (String (chr (Z.land (Z.lor (Z.shiftl leftchar 4) (Z.shiftr v 2)) 255)))
                  (a2b_loop s' 3 (Z.land v 3) O)
            | _ =>
                option_map (String (chr (Z.land (Z.lor (Z.shiftl leftchar 6) v) 255)))
                  (a2b_loop s' O 0 O)
            end
        end
  end.

Definition is_ascii (s : string) : bool :=
  forallb (fun c => (nat_of_ascii c <? 128)%nat) (list_ascii_of_string s).

(** [base64.b64decode(s)] for a [str]: non-ASCII text is a [ValueError]. *)
Definition b64decode (s : string) : option string :=
  if is_ascii s then a2b_loop s O 0 O else None.

End Base64.

(* ------------------------------------------------------------------ *)
(** ** Shared application state ([core.utils.state.global_state]) *)

Module App.
Import Py.

(** [google.oauth2.credentials.Credentials], the fields the middleware
    reads; [valid] and [expired] are the library's computed properties. *)
Record Creds := mkCreds {
  cr_token : option string;
  cr_refresh_token : option string;
  cr_client_id : option string;
  cr_client_secret : option string;
  cr_token_uri : option string;
  cr_id_token : option string;
  cr_valid : bool;
  cr_expired : bool
}.

(** The Gmail API client built by [build("gmail", "v1", credentials=...)]. *)
Record Service := mkService { service_creds : Creds }.

(** The keys of [global_state] the middleware and the tools use. *)
Record GState := mkGState {
  is_authenticated : bool;
  error_message : option string;
  google_oauth_credentials : option Creds;
  google_gmail_service : option Service
}.

Definition set_is_authenticated (b : bool) (g : GState) : GState :=
  mkGState b (error_message g) (google_oauth_credentials g) (google_gmail_service g).

Definition set_error_message (m : string) (g : GState) : GState :=
  mkGState (is_authenticated g) (Some m) (google_oauth_credentials g) (google_gmail_service g).

(** [attach_google_services] (src/utils/credentials.py) once [build] succeeded. *)
Definition set_services (c : Creds) (svc : Service) (g : GState) : GState :=
  mkGState (is_authenticated g) (error_message g) (Some c) (Some svc).

(** [check_access(returnJsonOnError=True)]: [None] when authenticated. *)
Definition check_access (g : GState) : option pydict :=
  if is_authenticated g then None
  else Some [("status", PStr "error");
             ("error", PStr (default "User is not authenticated." (error_message g)))].

(** Calls issued to the Gmail API, in order. *)
Inductive api_call : Type :=
  | DraftsDelete (id : string)
  | LabelsDelete (id : string)
  | LabelsList
  | MessagesGet (id : string)
  | MessagesModify (id : string) (remove add : list string).

(** The tools' answer when no Gmail client was attached. *)
Definition scope_error (APP_HOST : string) : pydict :=
  [("status", PStr "error");
   ("error", PStr ("Gmail permission scope not available, please add this scope here: "
                   ++ APP_HOST ++ "/auth/login")%string)].

(** [str(e)] of an exception. *)
Definition exn_str (e : exn) : string :=
  match e with
  | HttpError r => r
  | ValueError => "ValueError"
  | KeyError k => k
  | TypeError => "TypeError"
  | OtherError m => m
  end.

End App.

(* ------------------------------------------------------------------ *)
(** ** Two-phase deletion: src/tools/delete_draft.py, src/tools/delete_label.py *)

Module Delete.
Import Py App.

Section Tools.
Variable APP_HOST : string.

(** [time.time()] ticks per second ([now] is in microseconds). *)
Definition ticks : Z := 1000000.

Definition CONFIRMATION_TOKEN_VALIDITY_DURATION : Z := 5 * 60.

(** [int(time.time())] *)
Definition int_time (now : Z) : Z := Z.quot now ticks.

(** [base64.b64encode(f"{resource_id}:{int(time.time())}".encode()).decode()] *)
Definition mint_token (resource_id : string) (now : Z) : string :=
  Base64.b64encode (resource_id ++ ":" ++ str_of_int (int_time now))%string.

(** The statements of the [try] block that can raise:
    [decoded_params = base64.b64decode(confirmation_token).decode()],
    [token_id, token_timestamp = decoded_params.split(":")],
    [token_timestamp = int(token_timestamp)]; [None] is the exception. *)
Definition decode_token (confirmation_token : string) : option (string * Z) :=
  match Base64.b64decode confirmation_token with
  | None => None
  | Some raw =>
      match utf8_decode raw with
      | None => None
      | Some decoded_params =>
          match split ":" decoded_params with
          | [token_id; token_timestamp] =>
              match int_of_str token_timestamp with
              | Some ts => Some (token_id, ts)
              | None => None
              end
          | _ => None
          end
      end
  end.

(** [time.time() - token_timestamp > CONFIRMATION_TOKEN_VALIDITY_DURATION] *)
Definition is_expired (now ts : Z) : bool :=
  now - ts * ticks >? CONFIRMATION_TOKEN_VALIDITY_DURATION * ticks.

(** [if not confirmation_token] *)
Definition token_missing (t : option string) : bool :=
  match t with
  | None => true
  | Some s => String.eqb s EmptyString
  end.

Definition api_error (e : exn) : pydict :=
  match e with
  | HttpError r => [("status", PStr "error"); ("error", PStr r)]
  | e => [("status", PStr "error"); ("error", PStr ("Unexpected error: " ++ exn_str e)%string)]
  end.

(** [gmail_delete_draft_tool(draft_id, confirmation_token)] at time [now];
    [drafts_delete] is the outcome of [drafts().delete(...).execute()].
    Returns the result dict and the Gmail API calls issued. *)
Definition gmail_delete_draft_tool (g : GState) (now : Z)
    (drafts_delete : string -> result unit)
    (draft_id : string) (confirmation_token : option string)
    : pydict * list api_call :=
  match check_access g with
  | Some auth_response => (auth_response, [])
  | None =>
  match google_gmail_service g with
  | None => (scope_error APP_HOST, [])
  | Some _ =>
  if token_missing confirmation_token then
    ([("message", PStr ("Confirmation required to delete draft with ID '" ++ draft_id
                         ++ "'. Use the confirmation_token to confirm deletion.")%string);
      ("confirmation_token", PStr (mint_token draft_id now));
      ("action", PStr "confirm_deletion")], [])
  else
  match decode_token (default EmptyString confirmation_token) with
  | None => ([("error", PStr "Invalid confirmation token.")], [])
  | Some (token_draft_id, token_timestamp) =>
  if is_expired now token_timestamp then
    ([("error", PStr "Confirmation token has expired. Please request a new token.")], [])
  else if negb (String.eqb token_draft_id draft_id) then
    ([("error", PStr "Invalid confirmation token. Parameters do not match.");
      ("details", PDict [("token_params", PDict [("draft_id", PStr token_draft_id)]);
                         ("request_params", PDict [("draft_id", PStr draft_id)])])], [])
  else
  match drafts_delete draft_id with
  | Ok _ => ([("status", PStr "success"); ("message", PStr "Draft deleted successfully.")],
             [DraftsDelete draft_id])
  | Raise e => (api_error e, [DraftsDelete draft_id])
  end
  end
  end
  end.

(** [gmail_delete_label_tool(label_id, confirmation_token)] *)
Definition gmail_delete_label_tool (g : GState) (now : Z)
    (labels_delete : string -> result unit)
    (label_id : string) (confirmation_token : option string)
    : pydict * list api_call :=
  match check_access g with
  | Some auth_response => (auth_response, [])
  | None =>
  match google_gmail_service g with
  | None => (scope_error APP_HOST, [])
  | Some _ =>
  if token_missing confirmation_token then
    ([("message", PStr ("Confirmation required to delete label with ID '" ++ label_id
                         ++ "', confirm deletion with user and use the given confirmation_token with the same request parameters.")%string);
      ("confirmation_token", PStr (mint_token label_id now));
      ("action", PStr "confirm_deletion")], [])
  else
  match decode_token (default EmptyString confirmation_token) with
  | None => ([("error", PStr "Invalid confirmation token.")], [])
  | Some (token_label_id, token_timestamp) =>
  if is_expired now token_timestamp then
    ([("error", PStr "Confirmation token has expired. Please request a new token.")], [])
  else if negb (String.eqb token_label_id label_id) then
    ([("error", PStr "Invalid confirmation token. Parameters do not match, please request a new token.");
      ("details", PDict [("token_params", PDict [("label_id", PStr token_label_id)]);
                         ("request_params", PDict [("label_id", PStr label_id)])])], [])
  else
  match labels_delete label_id with
  | Ok _ => ([("status", PStr "success"); ("message", PStr "Label deleted successfully.")],
             [LabelsDelete label_id])
  | Raise e => (api_error e, [LabelsDelete label_id])
  end
  end
  end
  end.

End Tools.
End Delete.

(* ------------------------------------------------------------------ *)
(** ** Folder-label reconciliation: src/tools/move_emails.py,
       src/tools/archive_emails.py *)

Module Reconcile.
Import Py App.

(** An entry of [labels().list(...)]["labels"]. *)
Record Label := mkLabel {
  label_id : string;
  label_name : string;
  label_type : string
}.

Definition system_folder_labels : list string :=
  ["INBOX"; "DRAFT"; "TRASH"; "SPAM"; "CHAT"; "[Imap]/Sent"].

(** [{label["name"]: label["id"] for label in all_labels}]: a later entry
    with the same name overwrites an earlier one. *)
Definition label_name_to_id (all_labels : list Label) : gmap string string :=
  fold_left (fun m l => <[label_name l := label_id l]> m) all_labels ∅.

Definition is_folder_label (l : Label) : bool :=
  (String.eqb (label_type l) "system"
   && bool_decide (label_name l ∈ system_folder_labels))
  || String.eqb (label_type l) "user".

(** [folder_label_ids = {label["id"] for label in all_labels if ...}] *)
Definition folder_label_ids (all_labels : list Label) : gset string :=
  list_to_set (map label_id (List.filter is_folder_label all_labels)).

Definition unexpected_error (e : exn) : pydict :=
  [("status", PStr "error");
   ("error", PDict [("message", PStr "Unexpected error"); ("details", PStr (exn_str e))])].

(** The [except HttpError] inside the loop; any other exception reaches the
    outer [except Exception]. *)
Definition modify_error (message_id : string) (e : exn) : pydict :=
  match e with
  | HttpError r =>
      [("status", PStr "error");
       ("error", PStr ("Failed to modify email " ++ message_id ++ ": " ++ r)%string)]
  | e => unexpected_error e
  end.

Section Server.
(** The Gmail API's message endpoints over a server state [Mailbox]:
    [messages().get(...).execute()["labelIds"]] and
    [messages().modify(id, removeLabelIds, addLabelIds).execute()]. *)
Variable Mailbox : Type.
Variable messages_get : Mailbox -> string -> result (gset string).
Variable messages_modify : Mailbox -> string -> list string -> list string -> result Mailbox.
Variable APP_HOST : string.

(** The body of the [for message_id in message_ids] loop of [move]. *)
Definition move_one (folder_ids : gset string) (new_folder_label_id : string)
    (mb : Mailbox) (message_id : string) : result Mailbox * list api_call :=
  match messages_get mb message_id with
  | Raise e => (Raise e, [MessagesGet message_id])
  | Ok current_labels =>
      let labels_to_remove :=
        elements (filter (fun l => l ∈ folder_ids /\ l <> new_folder_label_id) current_labels) in
      (messages_modify mb message_id labels_to_remove [new_folder_label_id],
       [MessagesGet message_id; MessagesModify message_id labels_to_remove [new_folder_label_id]])
  end.

(** The loop body of [archive]: the request body has no [addLabelIds]. *)
Definition archive_one (folder_ids : gset string)
    (mb : Mailbox) (message_id : string) : result Mailbox * list api_call :=
  match messages_get mb message_id with
  | Raise e => (Raise e, [MessagesGet message_id])
  | Ok current_labels =>
      let labels_to_remove := elements (filter (fun l => l ∈ folder_ids) current_labels) in
      (messages_modify mb message_id labels_to_remove [],
       [MessagesGet message_id; MessagesModify message_id labels_to_remove []])
  end.

(** [for message_id in message_ids: ...], left at the first exception with
    the id it was raised for. *)
Fixpoint for_each (step : Mailbox -> string -> result Mailbox * list api_call)
    (ids : list string) (mb : Mailbox) : Mailbox * list api_call * option (string * exn) :=
  match ids with
  | [] => (mb, [], None)
  | message_id :: rest =>
      let '(r, log) := step mb message_id in
      match r with
      | Raise e => (mb, log, Some (message_id, e))
      | Ok mb' =>
          let '(mb'', log', err) := for_each step rest mb' in
          (mb'', log ++ log', err)
      end
  end.

(** [gmail_move_emails_tool(message_ids, new_folder_label)]; [labels_list]
    is the outcome of [labels().list(userId="me").execute()["labels"]].
    An [HttpError] raised there reaches the outer handler before
    [message_id] is bound, whose f-string then raises [UnboundLocalError]. *)
Definition gmail_move_emails_tool (g : GState) (labels_list : result (list Label))
    (mb : Mailbox) (message_ids : list string) (new_folder_label : string)
    : result pydict * Mailbox * list api_call :=
  match check_access g with
  | Some auth_response => (Ok auth_response, mb, [])
  | None =>
  match google_gmail_service g with
  | None => (Ok (scope_error APP_HOST), mb, [])
  | Some _ =>
  match labels_list with
  | Raise (HttpError _) => (Raise (OtherError "UnboundLocalError"), mb, [LabelsList])
  | Raise e => (Ok (unexpected_error e), mb, [LabelsList])
  | Ok all_labels =>
  match label_name_to_id all_labels !! new_folder_label with
  | None =>
      (Ok [("status", PStr "error");
           ("error", PStr ("Label '" ++ new_folder_label ++ "' not found.")%string)],
       mb, [LabelsList])
  | Some new_folder_label_id =>
      let folder_ids := folder_label_ids all_labels in
      let '(mb', log, err) :=
        for_each (move_one folder_ids new_folder_label_id) message_ids mb in
      match err with
      | Some (message_id, e) => (Ok (modify_error message_id e), mb', LabelsList :: log)
      | None =>
          (Ok [("status", PStr "success");
               ("message", PStr ("Email(s) successfully moved to '" ++ new_folder_label ++ "'")%string)],
           mb', LabelsList :: log)
      end
  end
  end
  end
  end.

(** [gmail_archive_emails_tool(message_ids)] *)
Definition gmail_archive_emails_tool (g : GState) (labels_list : result (list Label))
    (mb : Mailbox) (message_ids : list string)
    : result pydict * Mailbox * list api_call :=
  match check_access g with
  | Some auth_response => (Ok auth_response, mb, [])
  | None =>
  match google_gmail_service g with
  | None => (Ok (scope_error APP_HOST), mb, [])
  | Some _ =>
  match labels_list with
  | Raise (HttpError _) => (Raise (OtherError "UnboundLocalError"), mb, [LabelsList])
  | Raise e => (Ok (unexpected_error e), mb, [LabelsList])
  | Ok all_labels =>
      let folder_ids := folder_label_ids all_labels in
      let '(mb', log, err) := for_each (archive_one folder_ids) message_ids mb in
      match err with
      | Some (message_id, e) => (Ok (modify_error message_id e), mb', LabelsList :: log)
      | None =>
          (Ok [("status", PStr "success");
               ("message", PStr "Email(s) successfully had all labels removed.")],
           mb', LabelsList :: log)
      end
  end
  end
  end.

End Server.

(** The Gmail server's message store: message id to its label ids. An
    unknown id answers 404; [modify] removes [removeLabelIds] and adds
    [addLabelIds]. *)
Definition not_found : exn := HttpError "Requested entity was not found.".

Definition gmail_get (mb : gmap string (gset string)) (message_id : string)
    : result (gset string) :=
  match mb !! message_id with
  | Some ls => Ok ls
  | None => Raise not_found
  end.

Definition gmail_modify (mb : gmap string (gset string)) (message_id : string)
    (remove add : list string) : result (gmap string (gset string)) :=
  match mb !! message_id with
  | Some ls => Ok (<[message_id := (ls ∖ list_to_set remove) ∪ list_to_set add]> mb)
  | None => Raise not_found
  end.

(** The message a call is about. *)
Definition about (m : string) (c : api_call) : bool :=
  match c with
  | MessagesGet i | MessagesModify i _ _ => String.eqb i m
  | _ => false
  end.

(** Statements about runs of the loop are phrased with the chain of
    successful steps it made, in list order. *)
Section Runs.
Variable Mailbox : Type.
Variable step : Mailbox -> string -> result Mailbox * list api_call.

Inductive runs : Mailbox -> list string -> Mailbox -> list api_call -> Prop :=
  | runs_nil mb : runs mb [] mb []
  | runs_cons mb m rest mb1 l1 mb2 l2 :
      step mb m = (Ok mb1, l1) -> runs mb1 rest mb2 l2 ->
      runs mb (m :: rest) mb2 (l1 ++ l2).

(** The loop either ran every id, or ran a prefix, failed on the next id
    and stopped in the state the prefix left, having called the API only
    about the ids it reached. *)
Definition batch_outcome (mb : Mailbox) (ids : list string)
    (mb' : Mailbox) (log : list api_call) (err : option (string * exn)) : Prop :=
  match err with
  | None => runs mb ids mb' log
  | Some (mid, e) =>
      exists pre post mbp logp flog,
        ids = pre ++ mid :: post /\ runs mb pre mbp logp /\
        step mbp mid = (Raise e, flog) /\ mb' = mbp /\ log = logp ++ flog /\
        Forall (fun c => exists m, In m (pre ++ [mid]) /\ about m c = true) log
  end.
End Runs.

End Reconcile.

(* ------------------------------------------------------------------ *)
(** ** Batch label edits: src/tools/star_emails.py, src/tools/mark_emails.py,
    src/tools/set_emails_as_spam.py, src/tools/manage_labels.py *)

Module LabelTools.
Import Py App Reconcile.

Section Tools.
(** [messages().modify(userId="me", id, body={"removeLabelIds": ..,
    "addLabelIds": ..}).execute()] over a server state [Mailbox]; a key
    missing from the body is the empty list. *)
Variable Mailbox : Type.
Variable messages_modify : Mailbox -> string -> list string -> list string -> result Mailbox.
Variable APP_HOST : string.
(** Of an [HttpError] with reason [r] ([error._get_reason()]): [str(error.resp)]
    and the decoded [error.content]. *)
Variable error_details error_content : string -> string.
(** [e.error_details if hasattr(e, "error_details") else e.content] *)
Variable error_msg : string -> string.

(** One iteration of the loops: a single [modify] call. *)
Definition modify_one (remove add : list string) (mb : Mailbox) (message_id : string)
    : result Mailbox * list api_call :=
  (messages_modify mb message_id remove add, [MessagesModify message_id remove add]).

(** The [except HttpError as error] handler of the star, mark and spam
    tools; [message_key] is the key of [error_message] in the answer. *)
Definition google_api_error (message_key : string) (r : string) : pydict :=
  [("status", PStr "error");
   ("error", PDict [(message_key, PStr r);
                    ("details", PStr (error_details r));
                    ("content", PStr (error_content r))])].

(** [label_body] of [gmail_star_emails_tool], as (removeLabelIds, addLabelIds). *)
Definition star_label_body (star_email : option bool) : list string * list string :=
  match star_email with
  | Some true => ([], ["STARRED"])
  | Some false => (["STARRED"], [])
  | None => ([], [])
  end.

Definition gmail_star_emails_tool (g : GState) (mb : Mailbox)
    (message_ids : list string) (star_email : option bool)
    : pydict * Mailbox * list api_call :=
  match check_access g with
  | Some auth_response => (auth_response, mb, [])
  | None =>
  match google_gmail_service g with
  | None => (scope_error APP_HOST, mb, [])
  | Some _ =>
      let '(remove, add) := star_label_body star_email in
      let '(mb', log, err) := for_each Mailbox (modify_one remove add) message_ids mb in
      match err with
      | Some (_, HttpError r) => (google_api_error "message" r, mb', log)
      | Some (_, e) => (unexpected_error e, mb', log)
      | None =>
          ([("status", PStr "success");
            ("message", PStr ("Emails marked as "
               ++ (match star_email with Some true => "starred" | _ => "unstarred" end))%string)],
           mb', log)
      end
  end
  end.

Definition gmail_mark_emails_tool (g : GState) (mb : Mailbox)
    (message_ids : list string) (mark_as_read : bool)
    : pydict * Mailbox * list api_call :=
  match check_access g with
  | Some auth_response => (auth_response, mb, [])
  | None =>
  match google_gmail_service g with
  | None => (scope_error APP_HOST, mb, [])
  | Some _ =>
      let '(remove, add) :=
        if mark_as_read then (["UNREAD"], []) else ([], ["UNREAD"]) in
      let '(mb', log, err) := for_each Mailbox (modify_one remove add) message_ids mb in
      match err with
      | Some (_, HttpError r) => (google_api_error "error_message" r, mb', log)
      | Some (_, e) => (unexpected_error e, mb', log)
      | None =>
          ([("status", PStr "success");
            ("message", PStr ("Emails marked as "
               ++ (if mark_as_read then "read" else "unread"))%string)],
           mb', log)
      end
  end
  end.

(** [new_label or "INBOX"] *)
Definition label_or_inbox (new_label : option string) : string :=
  match new_label with
  | Some s => if String.eqb s EmptyString then "INBOX" else s
  | None => "INBOX"
  end.

Definition gmail_set_emails_as_spam_tool (g : GState) (mb : Mailbox)
    (message_ids : list string) (mark_as_spam : bool) (new_label : option string)
    : pydict * Mailbox * list api_call :=
  match check_access g with
  | Some auth_response => (auth_response, mb, [])
  | None =>
  match google_gmail_service g with
  | None => (scope_error APP_HOST, mb, [])
  | Some _ =>
      let '(remove, add) :=
        if mark_as_spam then ([], ["SPAM"]) else (["SPAM"], [label_or_inbox new_label]) in
      let '(mb', log, err) := for_each Mailbox (modify_one remove add) message_ids mb in
      match err with
      | Some (_, HttpError r) => (google_api_error "message" r, mb', log)
      | Some (_, e) => (unexpected_error e, mb', log)
      | None =>
          ([("status", PStr "success");
            ("message", PStr ("Emails marked as "
               ++ (if mark_as_spam then "spam" else "not spam"))%string)],
           mb', log)
      end
  end
  end.

(** [gmail_manage_labels_tool(message_ids, labels, action)]; [labels_list]
    is the outcome of [labels().list(userId="me").execute().get("labels", [])].
    Every exception but the per-message [HttpError] reaches the outer
    [except Exception as e], answering [str(e)]. *)
Definition gmail_manage_labels_tool (g : GState) (labels_list : result (list Label))
    (mb : Mailbox) (message_ids labels : list string) (action : string)
    : pydict * Mailbox * list api_call :=
  match check_access g with
  | Some auth_response => (auth_response, mb, [])
  | None =>
  match google_gmail_service g with
  | None => (scope_error APP_HOST, mb, [])
  | Some _ =>
  match labels_list with
  | Raise e => ([("status", PStr "error"); ("error", PStr (exn_str e))], mb, [LabelsList])
  | Ok all_labels =>
      let label_map := label_name_to_id all_labels in
      let label_ids := omap (fun name => label_map !! name) labels in
      match label_ids with
      | [] =>
          ([("status", PStr "error");
            ("error", PStr "None of the provided label names matched existing Gmail labels.")],
           mb, [LabelsList])
      | _ :: _ =>
          let '(remove, add) :=
            if String.eqb action "add" then ([], label_ids) else (label_ids, []) in
          if negb (bool_decide (action ∈ ["add"; "remove"])) then
            ([("status", PStr "error"); ("error", PStr "Invalid action. Use 'add' or 'remove'.")],
             mb, [LabelsList])
          else
            let '(mb', log, err) := for_each Mailbox (modify_one remove add) message_ids mb in
            match err with
            | Some (msg_id, HttpError r) =>
                ([("status", PStr "error"); ("message_id", PStr msg_id);
                  ("error", PStr ("Google API error while " ++ action ++ "ing labels: "
                                  ++ error_msg r)%string)],
                 mb', LabelsList :: log)
            | Some (_, e) =>
                ([("status", PStr "error"); ("error", PStr (exn_str e))], mb', LabelsList :: log)
            | None =>
                ([("status", PStr "success");
                  ("message", PStr ("Labels " ++ action ++ "ed to/from emails.")%string)],
                 mb', LabelsList :: log)
            end
      end
  end
  end
  end.

End Tools.

End LabelTools.

(* ------------------------------------------------------------------ *)
(** ** Authentication middleware: src/middleware/google/GoogleAuthMiddleware.py *)

Module Middleware.
Import Py App.

(** Which [return] of [dispatch] the run left by, named after the
    guard's terminal states; [UnexpectedError] is the outer
    [except Exception]. *)
Inductive exit_point : Type :=
  | NoTokenHeader
  | StoreLookupFailed
  | CredentialMissing
  | ParseFailed
  | Valid
  | RefreshFailed
  | InvalidUnrefreshable
  | UnexpectedError.

(** Observable steps of a run, in order: credential-store calls, calls to
    the token endpoint, and each invocation of [call_next] with the
    global state it sees. *)
Inductive event (DB : Type) : Type :=
  | DbGetCredentials (access_token : string)
  | DbUpdateAccessToken (user_id : string) (token : option string)
  | TokenRefresh
  | VerifyIdToken
  | BuildService
  | CallNext (g : GState).
Arguments DbGetCredentials {DB} access_token.
Arguments DbUpdateAccessToken {DB} user_id token.
Arguments TokenRefresh {DB}.
Arguments VerifyIdToken {DB}.
Arguments BuildService {DB}.
Arguments CallNext {DB} g.

Definition is_call_next {DB : Type} (ev : event DB) : bool :=
  match ev with
  | CallNext _ => true
  | _ => false
  end.

(** [if creds.refresh_token] *)
Definition truthy (s : option string) : bool :=
  match s with
  | Some s => negb (String.eqb s EmptyString)
  | None => false
  end.

Fixpoint assoc (k : string) (l : list (string * string)) : option string :=
  match l with
  | [] => None
  | (k', v) :: l' => if String.eqb k' k then Some v else assoc k l'
  end.

Section Dispatch.
Variable APP_HOST : string.
(** The credential store ([self.db_handler]) over its state [DB]. *)
Variable DB : Type.
Variable get_credentials : DB -> string -> result (option pydict).
Variable update_access_token : DB -> string -> option string -> result DB.
(** google-auth: [Credentials.from_authorized_user_info], [creds.refresh],
    [id_token.verify_oauth2_token]; googleapiclient's [build]. *)
Variable from_authorized_user_info : pyval -> result Creds.
Variable refresh : Creds -> result Creds.
Variable verify_oauth2_token : option string -> option string -> result (list (string * string)).
Variable build : Creds -> result Service.
(** The downstream handler. *)
Variable Resp : Type.
Variable call_next : GState -> result Resp.

Definition msg_no_header : string :=
  "X-ACCESS-TOKEN is a required header parameter. Please go to " ++ APP_HOST
  ++ "/auth/login to get the required paramaters.".
Definition msg_auth_again : string :=
  "There has been an error with authenticating, please go to " ++ APP_HOST
  ++ "/auth/login and authenticate again".
Definition msg_deauth : string :=
  "There has been an error with authenticating, please deauthenticate the app and go to "
  ++ APP_HOST ++ "/auth/login".
Definition msg_outer : string :=
  "There has been an error with authenticating, please go to " ++ APP_HOST
  ++ "/auth/login to authenticate".

(** A run of the outer [try] block: the outcome ([Raise] goes to the outer
    handler), the global state at that point, the store and the steps. *)
Definition body_out : Type :=
  (result Resp * GState * DB * list (event DB) * exit_point)%type.

Definition forward (g : GState) (db : DB) (log : list (event DB)) (x : exit_point) : body_out :=
  (call_next g, g, db, log ++ [CallNext g], x).

(** [self.auth_callback()(creds)]: attach the services, then mark the
    request authenticated and call the next handler. *)
Definition publish (creds : Creds) (g : GState) (db : DB) (log : list (event DB)) : body_out :=
  match build creds with
  | Raise e => (Raise e, g, db, log ++ [BuildService], UnexpectedError)
  | Ok svc =>
      forward (set_is_authenticated true (set_services creds svc g)) db
        (log ++ [BuildService]) Valid
  end.

(** The inner [try] of the refresh: new [Credentials(None, ...)], refresh,
    verify the id token, read its ["sub"], store the new token. *)
Definition refresh_flow (creds : Creds) (db : DB)
    : result (Creds * DB) * list (event DB) :=
  let creds0 := mkCreds None (cr_refresh_token creds) (cr_client_id creds)
                  (cr_client_secret creds) (Some "https://oauth2.googleapis.com/token")
                  None false false in
  match refresh creds0 with
  | Raise e => (Raise e, [TokenRefresh])
  | Ok creds1 =>
  match verify_oauth2_token (cr_id_token creds1) (cr_client_id creds1) with
  | Raise e => (Raise e, [TokenRefresh; VerifyIdToken])
  | Ok id_info =>
  match assoc "sub" id_info with
  | None => (Raise (KeyError "sub"), [TokenRefresh; VerifyIdToken])
  | Some user_id =>
  match update_access_token db user_id (cr_token creds1) with
  | Raise e => (Raise e, [TokenRefresh; VerifyIdToken; DbUpdateAccessToken user_id (cr_token creds1)])
  | Ok db' => (Ok (creds1, db'), [TokenRefresh; VerifyIdToken; DbUpdateAccessToken user_id (cr_token creds1)])
  end
  end
  end
  end.

(** The outer [try] block of [dispatch]; [x_access_token] is
    [request.headers.get("x-access-token", None)]. *)
Definition dispatch_body (g0 : GState) (db : DB) (x_access_token : option string) : body_out :=
  let g1 := set_is_authenticated false g0 in
  match x_access_token with
  | None => forward (set_error_message msg_no_header g1) db [] NoTokenHeader
  | Some access_token =>
  if String.eqb access_token EmptyString then
    forward (set_error_message msg_no_header g1) db [] NoTokenHeader
  else
  let log0 := [DbGetCredentials access_token] in
  match get_credentials db access_token with
  | Raise _ => forward (set_error_message msg_auth_again g1) db log0 StoreLookupFailed
  | Ok None => (Raise TypeError, g1, db, log0, UnexpectedError)
  | Ok (Some cred) =>
  if has_key "error" cred then
    forward (set_error_message msg_auth_again g1) db log0 CredentialMissing
  else
  match get_key "credentials" cred with
  | None => (Raise (KeyError "credentials"), g1, db, log0, UnexpectedError)
  | Some credentials =>
  match from_authorized_user_info credentials with
  | Raise _ => forward g1 db log0 ParseFailed
  | Ok creds =>
  if cr_valid creds then publish creds g1 db log0
  else if cr_expired creds && truthy (cr_refresh_token creds) then
    match refresh_flow creds db with
    | (Raise _, log1) =>
        forward (set_error_message msg_auth_again g1) db (log0 ++ log1) RefreshFailed
    | (Ok (creds1, db'), log1) => publish creds1 g1 db' (log0 ++ log1)
    end
  else forward (set_error_message msg_deauth g1) db log0 InvalidUnrefreshable
  end
  end
  end
  end.

(** [GoogleAuthMiddleware.dispatch]: the outer [except Exception] sets an
    error message and calls the next handler. *)
Definition dispatch (g0 : GState) (db : DB) (x_access_token : option string)
    : result Resp * DB * list (event DB) * exit_point :=
  let '(r, g, db', log, x) := dispatch_body g0 db x_access_token in
  match r with
  | Ok resp => (Ok resp, db', log, x)
  | Raise _ =>
      let g' := set_error_message msg_outer g in
      (call_next g', db', log ++ [CallNext g'], x)
  end.

End Dispatch.

Arguments dispatch_body APP_HOST {DB} get_credentials update_access_token
  from_authorized_user_info refresh verify_oauth2_token build {Resp} call_next g0 db x_access_token.
Arguments dispatch APP_HOST {DB} get_credentials update_access_token
  from_authorized_user_info refresh verify_oauth2_token build {Resp} call_next g0 db x_access_token.

End Middleware.

(* ------------------------------------------------------------------ *)
(** ** Concrete inputs used by the witnesses *)

Module Fixtures.
Import App.

Definition host : string := "http://localhost:8000".

Definition some_creds : Creds :=
  mkCreds (Some "ya29.token") (Some "1//refresh") (Some "client") (Some "secret")
          (Some "https://oauth2.googleapis.com/token") None true false.

(** The global state of a request the middleware authenticated. *)
Definition authed : GState :=
  mkGState true None (Some some_creds) (Some (mkService some_creds)).

(** A wall-clock instant, in microseconds (2023-11-14T22:13:20.5Z). *)
Definition t0 : Z := 1700000000500000.

Definition delete_ok (_ : string) : Py.result unit := Py.Ok tt.

(** A label catalog: two system folders, a system non-folder label, two
    user labels. *)
Definition labels : list Reconcile.Label :=
  [Reconcile.mkLabel "INBOX" "INBOX" "system";
   Reconcile.mkLabel "TRASH" "TRASH" "system";
   Reconcile.mkLabel "IMPORTANT" "IMPORTANT" "system";
   Reconcile.mkLabel "Label_1" "Work" "user";
   Reconcile.mkLabel "Label_2" "Travel" "user"].

Definition mailbox : gmap string (gset string) :=
  <["m1" := {[ "INBOX"; "IMPORTANT" ]}]> (<["m2" := {[ "Label_1" ]}]> ∅).

(** A credential store: the stored record of each access token, and the
    access tokens written back, newest first. *)
Record Store := mkStore {
  store_records : list (string * Py.pydict);
  store_updates : list (string * option string)
}.

Definition store0 : Store :=
  mkStore [("tok-1", [("credentials", Py.PStr "{...}")])] [].

Definition get_credentials (db : Store) (access_token : string)
    : Py.result (option Py.pydict) :=
  match List.find (fun kv => String.eqb kv.1 access_token) (store_records db) with
  | Some kv => Py.Ok (Some kv.2)
  | None => Py.Ok (Some [("error", Py.PStr "No credentials found")])
  end.

Definition update_access_token (db : Store) (user_id : string) (token : option string)
    : Py.result Store :=
  Py.Ok (mkStore (store_records db) ((user_id, token) :: store_updates db)).

Definition get_credentials_down (_ : Store) (_ : string) : Py.result (option Py.pydict) :=
  Py.Raise (Py.OtherError "connection refused").

Definition expired_creds : Creds :=
  mkCreds (Some "ya29.old") (Some "1//refresh") (Some "client") (Some "secret")
          (Some "https://oauth2.googleapis.com/token") None false true.

Definition parse_expired (_ : Py.pyval) : Py.result Creds := Py.Ok expired_creds.
Definition parse_malformed (_ : Py.pyval) : Py.result Creds := Py.Raise Py.ValueError.

Definition refresh_ok (c : Creds) : Py.result Creds :=
  Py.Ok (mkCreds (Some "ya29.new") (cr_refresh_token c) (cr_client_id c) (cr_client_secret c)
                 (cr_token_uri c) (Some "eyJ.id.token") true false).
Definition refresh_down (_ : Creds) : Py.result Creds :=
  Py.Raise (Py.OtherError "RefreshError").

Definition verify_ok (_ _ : option string) : Py.result (list (string * string)) :=
  Py.Ok [("iss", "https://accounts.google.com"); ("sub", "1234567890")].

Definition build_ok (c : Creds) : Py.result Service := Py.Ok (mkService c).

(** What [refresh_ok] gives for the credentials the middleware builds
    from [expired_creds], and the store after the token is written back. *)
Definition refreshed : Creds :=
  mkCreds (Some "ya29.new") (Some "1//refresh") (Some "client") (Some "secret")
          (Some "https://oauth2.googleapis.com/token") (Some "eyJ.id.token") true false.
Definition store1 : Store :=
  mkStore (store_records store0) [("1234567890", Some "ya29.new")].

(** A downstream tool whose first statement is [check_access]. *)
Definition next_tool (g : GState) : Py.result (option Py.pydict) := Py.Ok (check_access g).

(** The global state before any request, and after a request that came
    without the header. *)
Definition fresh : GState := mkGState false None None None.
Definition after_no_header : GState :=
  mkGState false (Some (Middleware.msg_no_header host)) None None.

End Fixtures.
(* ================================================================== *)
(** * Proofs *)

(** ** The token codec round-trips *)

Module CodecFacts.
Import Py Base64.

Definition bytes : list ascii := map ascii_of_nat (seq 0 256).

Lemma bytes_complete (a : ascii) : In a bytes.
Proof.
  unfold bytes. rewrite <- (ascii_nat_embedding a).
  apply in_map, in_seq. pose proof (nat_ascii_bounded a). lia.
Qed.

Lemma forall_bytes (f : ascii -> bool) :
  forallb f bytes = true -> forall a, f a = true.
Proof. intros H a. rewrite forallb_forall in H. apply H, bytes_complete. Qed.

Definition six (v : Z) : bool := (0 <=? v) && (v <? 64).

(** Each sextet maps to a non-pad ASCII character that [table_a2b] maps back. *)
Definition sextet_ok (i : Z) : bool :=
  match table_a2b (table_b2a i) with
  | Some j => (j =? i) && negb (Ascii.eqb (table_b2a i) "=")
              && (nat_of_ascii (table_b2a i) <? 128)%nat
  | None => false
  end.

Lemma sextet_ok_all : forallb (fun n => sextet_ok (Z.of_nat n)) (seq 0 64) = true.
Proof. vm_compute. reflexivity. Qed.

Lemma sextet_spec (i : Z) : six i = true ->
  table_a2b (table_b2a i) = Some i /\ Ascii.eqb (table_b2a i) "=" = false
  /\ (nat_of_ascii (table_b2a i) < 128)%nat.
Proof.
  unfold six. intros Hi. apply andb_true_iff in Hi as [H0 H1].
  apply Z.leb_le in H0. apply Z.ltb_lt in H1.
  pose proof sextet_ok_all as H. rewrite forallb_forall in H.
  specialize (H (Z.to_nat i)). rewrite Z2Nat.id in H by lia.
  assert (Hin : In (Z.to_nat i) (seq 0 64)) by (apply in_seq; lia).
  specialize (H Hin). unfold sextet_ok in H.
  destruct (table_a2b (table_b2a i)) as [j|]; [|discriminate].
  apply andb_true_iff in H as [H H3]. apply andb_true_iff in H as [H H2].
  apply Z.eqb_eq in H. subst j. apply negb_true_iff in H2.
  apply Nat.ltb_lt in H3. auto.
Qed.

Definition v1 (a : ascii) : Z := Z.shiftr (ord a) 2.
Definition v2 (a b : ascii) : Z := Z.lor (Z.shiftl (Z.land (ord a) 3) 4) (Z.shiftr (ord b) 4).
Definition v3 (b c : ascii) : Z := Z.lor (Z.shiftl (Z.land (ord b) 15) 2) (Z.shiftr (ord c) 6).
Definition v4 (c : ascii) : Z := Z.land (ord c) 63.
Definition v2t (a : ascii) : Z := Z.shiftl (Z.land (ord a) 3) 4.
Definition v3t (b : ascii) : Z := Z.shiftl (Z.land (ord b) 15) 2.

Definition check_a (a : ascii) : bool :=
  six (v1 a) && six (v4 a) && six (v2t a) && six (v3t a)
  && Ascii.eqb (chr (Z.land (Z.lor (Z.shiftl (Z.shiftr (ord a) 6) 6) (v4 a)) 255)) a
  && Ascii.eqb (chr (Z.land (Z.lor (Z.shiftl (v1 a) 2) (Z.shiftr (v2t a) 4)) 255)) a
  && Ascii.eqb (chr (Z.land (Z.lor (Z.shiftl (Z.shiftr (ord a) 4) 4) (Z.shiftr (v3t a) 2)) 255)) a
  && (Z.land (v3t a) 3 =? 0).

Definition check_ab (a b : ascii) : bool :=
  six (v2 a b)
  && Ascii.eqb (chr (Z.land (Z.lor (Z.shiftl (v1 a) 2) (Z.shiftr (v2 a b) 4)) 255)) a
  && (Z.land (v2 a b) 15 =? Z.shiftr (ord b) 4).

Definition check_bc (b c : ascii) : bool :=
  six (v3 b c)
  && Ascii.eqb (chr (Z.land (Z.lor (Z.shiftl (Z.shiftr (ord b) 4) 4) (Z.shiftr (v3 b c) 2)) 255)) b
  && (Z.land (v3 b c) 3 =? Z.shiftr (ord c) 6).

Lemma check_a_all : forallb check_a bytes = true.
Proof. vm_compute. reflexivity. Qed.

Lemma check_ab_all : forallb (fun a => forallb (check_ab a) bytes) bytes = true.
Proof. vm_compute. reflexivity. Qed.

Lemma check_bc_all : forallb (fun b => forallb (check_bc b) bytes) bytes = true.
Proof. vm_compute. reflexivity. Qed.

Lemma check_a_ok (a : ascii) : check_a a = true.
Proof. apply (forall_bytes _ check_a_all). Qed.

Lemma check_ab_ok (a b : ascii) : check_ab a b = true.
Proof. revert b. apply forall_bytes. apply (forall_bytes _ check_ab_all). Qed.

Lemma check_bc_ok (b c : ascii) : check_bc b c = true.
Proof. revert c. apply forall_bytes. apply (forall_bytes _ check_bc_all). Qed.

(** One data character in [a2b_loop]. *)
Lemma a2b_data (v : Z) (s : string) (q : nat) (l : Z) (p : nat) :
  six v = true ->
  a2b_loop (String (table_b2a v) s) q l p =
  match q with
  | O => a2b_loop s 1 v O
  | 1%nat => option_map (String (chr (Z.land (Z.lor (Z.shiftl l 2) (Z.shiftr v 4)) 255)))
               (a2b_loop s 2 (Z.land v 15) O)
  | 2%nat => option_map (String (chr (Z.land (Z.lor (Z.shiftl l 4) (Z.shiftr v 2)) 255)))
               (a2b_loop s 3 (Z.land v 3) O)
  | _ => option_map (String (chr (Z.land (Z.lor (Z.shiftl l 6) v) 255)))
               (a2b_loop s O 0 O)
  end.
Proof.
  intros Hv. destruct (sextet_spec v Hv) as [H1 [H2 _]].
  cbn [a2b_loop]. rewrite H2, H1. reflexivity.
Qed.

Ltac split_checks H :=
  repeat match goal with
  | H' : (_ && _) = true |- _ => apply andb_true_iff in H' as [? ?]
  end.

Ltac eqb_to_eq :=
  repeat match goal with
  | H : Ascii.eqb _ _ = true |- _ => apply Ascii.eqb_eq in H
  | H : (_ =? _) = true |- _ => apply Z.eqb_eq in H
  end.

Ltac rewrite_lands :=
  repeat match goal with
  | H : Z.land _ _ = _ |- _ => rewrite H; clear H
  end.

Lemma a2b_b2a_n (n : nat) (s : string) :
  (String.length s <= n)%nat -> a2b_loop (b2a s) O 0 O = Some s.
Proof.
  revert s. induction n as [n IH] using lt_wf_ind. intros s Hlen.
  destruct s as [|a [|b [|c rest]]].
  - reflexivity.
  - pose proof (check_a_ok a) as Ha. unfold check_a, v1, v2t, v3t, v4 in Ha.
    split_checks Ha.
    cbn [b2a].
    rewrite a2b_data by assumption. rewrite a2b_data by assumption.
    cbn [a2b_loop]. simpl. eqb_to_eq. congruence.
  - pose proof (check_a_ok a) as Ha. unfold check_a, v1, v2t, v3t, v4 in Ha.
    pose proof (check_a_ok b) as Hb. unfold check_a, v1, v2t, v3t, v4 in Hb.
    pose proof (check_ab_ok a b) as Hab. unfold check_ab, v1, v2 in Hab.
    split_checks Ha. split_checks Hb. split_checks Hab.
    cbn [b2a].
    do 3 (rewrite a2b_data by assumption).
    cbn [a2b_loop]. simpl. eqb_to_eq. rewrite_lands. congruence.
  - pose proof (check_a_ok a) as Ha. unfold check_a, v1, v2t, v3t, v4 in Ha.
    pose proof (check_a_ok c) as Hc. unfold check_a, v1, v2t, v3t, v4 in Hc.
    pose proof (check_ab_ok a b) as Hab. unfold check_ab, v1, v2 in Hab.
    pose proof (check_bc_ok b c) as Hbc. unfold check_bc, v3 in Hbc.
    split_checks Ha. split_checks Hc. split_checks Hab. split_checks Hbc.
    cbn [b2a].
    do 4 (rewrite a2b_data by assumption).
    cbn [option_map]. eqb_to_eq. rewrite_lands.
    rewrite (IH (String.length rest)) by (simpl in Hlen; lia).
    cbn [option_map]. congruence.
Qed.

End CodecFacts.

(** ** [str] / [int] and [split] facts *)

Module StrFacts.
Import Py.

(** stdpp makes [String.append] [simpl never]; these are its equations. *)
Lemma append_String (c : ascii) (r t : string) :
  (String c r ++ t)%string = String c (r ++ t)%string.
Proof. reflexivity. Qed.

Lemma append_Empty (t : string) : (EmptyString ++ t)%string = t.
Proof. reflexivity. Qed.

Lemma string_of_uint_cons (u : Decimal.uint) :
  u <> Decimal.Nil ->
  exists c r, NilEmpty.string_of_uint u = String c r
    /\ Ascii.eqb c "_" = false /\ Ascii.eqb c "-" = false /\ Ascii.eqb c "+" = false
    /\ is_ascii_space c = false.
Proof. destruct u; intros H; try congruence; do 2 eexists; repeat split; reflexivity. Qed.

Lemma uint_nil_dec (u : Decimal.uint) : u = Decimal.Nil \/ u <> Decimal.Nil.
Proof. destruct u; [left; reflexivity | right; discriminate ..]. Qed.

Lemma int_digits_cons2 (c d : ascii) (r : string) :
  int_digits (String c (String d r)) =
  if Ascii.eqb d "_"%char then
    match int_digits r with Some u => uint_of_char c (Some u) | None => None end
  else
    match int_digits (String d r) with Some u => uint_of_char c (Some u) | None => None end.
Proof. reflexivity. Qed.

Lemma int_digits_string_of_uint (u : Decimal.uint) :
  u <> Decimal.Nil -> int_digits (NilEmpty.string_of_uint u) = Some u.
Proof.
  induction u as [|u IH|u IH|u IH|u IH|u IH|u IH|u IH|u IH|u IH|u IH]; intros Hu;
    [congruence| ..];
  (destruct (uint_nil_dec u) as [->|Hn];
   [ reflexivity
   | destruct (string_of_uint_cons u Hn) as (c & r & Hs & H1 & _);
     specialize (IH Hn); cbn [NilEmpty.string_of_uint]; rewrite Hs in IH |- *;
     rewrite int_digits_cons2, H1, IH; reflexivity ]).
Qed.

Lemma string_of_uint_nospace (u : Decimal.uint) :
  forallb (fun c => negb (is_ascii_space c)) (list_ascii_of_string (NilEmpty.string_of_uint u)) = true.
Proof. induction u; simpl; auto. Qed.

Lemma rstrip_nospace (s : string) :
  forallb (fun c => negb (is_ascii_space c)) (list_ascii_of_string s) = true -> rstrip s = s.
Proof.
  induction s as [|c r IH]; simpl; [reflexivity|].
  intros H. apply andb_true_iff in H as [Hc Hr]. rewrite (IH Hr).
  apply negb_true_iff in Hc. rewrite Hc, andb_false_r. reflexivity.
Qed.

Lemma to_int_nonnil (n : Z) :
  match Z.to_int n with Decimal.Pos u | Decimal.Neg u => u <> Decimal.Nil end.
Proof.
  destruct n; simpl; [discriminate | apply Unsigned.to_uint_nonnil ..].
Qed.

(** [int(str(n)) == n] *)
Theorem int_of_str_of_int (n : Z) : int_of_str (str_of_int n) = Some n.
Proof.
  unfold int_of_str, str_of_int, strip.
  pose proof (to_int_nonnil n) as Hn. pose proof (DecimalZ.of_to n) as Hof.
  destruct (Z.to_int n) as [u|u] eqn:E; cbn [NilEmpty.string_of_int].
  - destruct (string_of_uint_cons u Hn) as (c & r & Hs & H1 & H2 & H3 & H4).
    rewrite Hs. cbn [lstrip]. rewrite H4. rewrite <- Hs.
    rewrite rstrip_nospace by apply string_of_uint_nospace. rewrite Hs.
    rewrite H2, H3. rewrite <- Hs, int_digits_string_of_uint by exact Hn.
    cbn [option_map]. now rewrite Hof.
  - cbn [lstrip]. change (is_ascii_space "-") with false. cbn iota.
    rewrite rstrip_nospace.
    2:{ cbn. apply string_of_uint_nospace. }
    cbn [Ascii.eqb Bool.eqb]. cbn iota.
    rewrite int_digits_string_of_uint by exact Hn. cbn [option_map]. now rewrite Hof.
Qed.

Lemma split_nonempty (sep : ascii) (s : string) : split sep s <> [].
Proof.
  destruct s as [|c r]; simpl; [discriminate|].
  destruct (split sep r); [discriminate|]. destruct (Ascii.eqb c sep); discriminate.
Qed.

Lemma length_split (sep : ascii) (s : string) :
  List.length (split sep s) = S (count_char sep s).
Proof.
  unfold count_char. induction s as [|c r IH]; simpl; [reflexivity|].
  destruct (split sep r) as [|w ws] eqn:E; [exfalso; eapply split_nonempty; eauto|].
  rewrite (Ascii.eqb_sym sep c).
  destruct (Ascii.eqb c sep); simpl in *; lia.
Qed.

Lemma count_char_app (c : ascii) (s t : string) :
  count_char c (s ++ t) = (count_char c s + count_char c t)%nat.
Proof.
  unfold count_char. induction s as [|d r IH]; [reflexivity|].
  rewrite append_String. simpl. destruct (Ascii.eqb c d); simpl; lia.
Qed.

Lemma contains_count (c : ascii) (s : string) :
  contains c s = true -> (1 <= count_char c s)%nat.
Proof.
  unfold contains, count_char. induction s as [|d r IH]; simpl; [discriminate|].
  destruct (Ascii.eqb c d); simpl; [lia|]. intros H; specialize (IH H); lia.
Qed.

Lemma split_app_sep (sep : ascii) (s t : string) :
  contains sep s = false -> split sep (s ++ String sep t) = s :: split sep t.
Proof.
  unfold contains. induction s as [|c r IH]; intros H.
  - rewrite append_Empty. simpl.
    destruct (split sep t) eqn:E; [exfalso; eapply split_nonempty; eauto|].
    rewrite Ascii.eqb_refl. reflexivity.
  - rewrite append_String. simpl in H |- *.
    apply orb_false_iff in H as [Hc Hr]. rewrite (IH Hr).
    rewrite Ascii.eqb_sym, Hc. reflexivity.
Qed.

Lemma split_no_sep (sep : ascii) (s : string) :
  contains sep s = false -> split sep s = [s].
Proof.
  unfold contains. induction s as [|c r IH]; simpl; intros H; [reflexivity|].
  apply orb_false_iff in H as [Hc Hr]. rewrite (IH Hr).
  rewrite Ascii.eqb_sym, Hc. reflexivity.
Qed.

(** No piece of [s.split(sep)] contains [sep]. *)
Lemma split_pieces (sep : ascii) (s w : string) :
  In w (split sep s) -> contains sep w = false.
Proof.
  unfold contains. revert w. induction s as [|c r IH]; simpl; intros w Hw.
  - destruct Hw as [<-|[]]. reflexivity.
  - destruct (split sep r) as [|w0 ws] eqn:E; [exfalso; eapply split_nonempty; eauto|].
    destruct (Ascii.eqb c sep) eqn:Ec.
    + destruct Hw as [<-|Hw]; [reflexivity|]. apply IH. exact Hw.
    + destruct Hw as [<-|Hw].
      * simpl. rewrite Ascii.eqb_sym, Ec. simpl. apply IH. left. reflexivity.
      * apply IH. right. exact Hw.
Qed.

Lemma str_of_int_no_colon (n : Z) : contains ":" (str_of_int n) = false.
Proof.
  unfold str_of_int. destruct (Z.to_int n) as [u|u]; cbn [NilEmpty.string_of_int];
  [|unfold contains; cbn [list_ascii_of_string existsb Ascii.eqb Bool.eqb]];
  induction u; simpl; auto.
Qed.

(** ASCII text is well-formed UTF-8, and UTF-8 is closed under concatenation. *)
Lemma utf8_valid_ascii (s : string) :
  forallb (fun c => (nat_of_ascii c <? 128)%nat) (list_ascii_of_string s) = true ->
  utf8_valid s = true.
Proof.
  induction s as [|c r IH]; simpl; [reflexivity|].
  intros H. apply andb_true_iff in H as [Hc Hr]. rewrite Hc. apply IH, Hr.
Qed.

Lemma utf8_valid_app_n (n : nat) (s t : string) :
  (String.length s <= n)%nat -> utf8_valid s = true -> utf8_valid t = true ->
  utf8_valid (s ++ t) = true.
Proof.
  revert s. induction n as [n IH] using lt_wf_ind.
  intros s Hlen Hs Ht. destruct s as [|c r]; [exact Ht|].
  rewrite append_String. cbn [utf8_valid] in *.
  destruct (nat_of_ascii c <? 128)%nat.
  { apply (IH (String.length r)); simpl in Hlen; auto; lia. }
  destruct ((194 <=? nat_of_ascii c) && (nat_of_ascii c <=? 223))%nat.
  { destruct r as [|c1 r1]; [discriminate|]. rewrite !append_String.
    apply andb_true_iff in Hs as [H1 H2]. rewrite H1.
    apply (IH (String.length r1)); simpl in Hlen; auto; lia. }
  destruct ((224 <=? nat_of_ascii c) && (nat_of_ascii c <=? 239))%nat.
  { destruct r as [|c1 [|c2 r2]]; try discriminate. rewrite !append_String.
    apply andb_true_iff in Hs as [H1 H2]. rewrite H1.
    apply (IH (String.length r2)); simpl in Hlen; auto; lia. }
  destruct ((240 <=? nat_of_ascii c) && (nat_of_ascii c <=? 244))%nat; [|discriminate].
  destruct r as [|c1 [|c2 [|c3 r3]]]; try discriminate. rewrite !append_String.
  apply andb_true_iff in Hs as [H1 H2]. rewrite H1.
  apply (IH (String.length r3)); simpl in Hlen; auto; lia.
Qed.

Lemma utf8_valid_app (s t : string) :
  utf8_valid s = true -> utf8_valid t = true -> utf8_valid (s ++ t) = true.
Proof. apply (utf8_valid_app_n (String.length s)). lia. Qed.

Lemma utf8_valid_str_of_int (n : Z) : utf8_valid (String ":" (str_of_int n)) = true.
Proof.
  apply utf8_valid_ascii. unfold str_of_int.
  destruct (Z.to_int n) as [u|u]; cbn [NilEmpty.string_of_int]; simpl;
  induction u; simpl; auto.
Qed.

End StrFacts.

(** ** The minted confirmation token decodes to what was encoded *)

Module TokenFacts.
Import Py Base64 CodecFacts StrFacts Delete.

Lemma is_ascii_cons (c : ascii) (s : string) :
  is_ascii (String c s) = (nat_of_ascii c <? 128)%nat && is_ascii s.
Proof. reflexivity. Qed.

Lemma is_ascii_b2a_n (n : nat) (s : string) :
  (String.length s <= n)%nat -> is_ascii (b2a s) = true.
Proof.
  revert s. induction n as [n IH] using lt_wf_ind. intros s Hlen.
  destruct s as [|a [|b [|c rest]]].
  - reflexivity.
  - pose proof (check_a_ok a) as Ha. unfold check_a, v1, v2t, v3t, v4 in Ha.
    split_checks Ha. cbn [b2a].
    rewrite !is_ascii_cons.
    repeat match goal with H : six ?v = true |- context [table_b2a ?v] =>
      let E := fresh in destruct (sextet_spec v H) as (_ & _ & E);
      apply Nat.ltb_lt in E; rewrite E; clear H end.
    reflexivity.
  - pose proof (check_a_ok a) as Ha. unfold check_a, v1, v2t, v3t, v4 in Ha.
    pose proof (check_a_ok b) as Hb. unfold check_a, v1, v2t, v3t, v4 in Hb.
    pose proof (check_ab_ok a b) as Hab. unfold check_ab, v1, v2 in Hab.
    split_checks Ha. split_checks Hb. split_checks Hab. cbn [b2a].
    rewrite !is_ascii_cons.
    repeat match goal with H : six ?v = true |- context [table_b2a ?v] =>
      let E := fresh in destruct (sextet_spec v H) as (_ & _ & E);
      apply Nat.ltb_lt in E; rewrite E; clear H end.
    reflexivity.
  - pose proof (check_a_ok a) as Ha. unfold check_a, v1, v2t, v3t, v4 in Ha.
    pose proof (check_a_ok c) as Hc. unfold check_a, v1, v2t, v3t, v4 in Hc.
    pose proof (check_ab_ok a b) as Hab. unfold check_ab, v1, v2 in Hab.
    pose proof (check_bc_ok b c) as Hbc. unfold check_bc, v3 in Hbc.
    split_checks Ha. split_checks Hc. split_checks Hab. split_checks Hbc. cbn [b2a].
    rewrite !is_ascii_cons.
    repeat match goal with H : six ?v = true |- context [table_b2a ?v] =>
      let E := fresh in destruct (sextet_spec v H) as (_ & _ & E);
      apply Nat.ltb_lt in E; rewrite E; clear H end.
    rewrite (IH (String.length rest)) by (simpl in Hlen; lia). reflexivity.
Qed.

(** [base64.b64decode(base64.b64encode(b)) == b] *)
Theorem b64decode_b64encode (s : string) : b64decode (b64encode s) = Some s.
Proof.
  unfold b64decode, b64encode.
  rewrite (is_ascii_b2a_n (String.length s)) by lia.
  apply (a2b_b2a_n (String.length s)). lia.
Qed.

Lemma b2a_nonempty (c : ascii) (s : string) : b2a (String c s) <> EmptyString.
Proof. destruct s as [|b [|d r]]; discriminate. Qed.

Lemma mint_token_nonempty (rid : string) (now : Z) :
  String.eqb (mint_token rid now) EmptyString = false.
Proof.
  unfold mint_token, b64encode. apply String.eqb_neq.
  destruct rid as [|c r].
  - rewrite append_Empty. apply b2a_nonempty.
  - rewrite append_String. apply b2a_nonempty.
Qed.

(** A token minted for an id without [':'] decodes to that id and the
    truncated issue second. *)
Theorem decode_mint_token (rid : string) (now : Z) :
  utf8_valid rid = true -> contains ":" rid = false ->
  decode_token (mint_token rid now) = Some (rid, int_time now).
Proof.
  intros Hu Hc. unfold decode_token, mint_token.
  rewrite b64decode_b64encode. unfold utf8_decode.
  change (":" ++ str_of_int (int_time now))%string
    with (String ":" (str_of_int (int_time now))).
  rewrite utf8_valid_app by (auto using utf8_valid_str_of_int).
  rewrite split_app_sep by exact Hc.
  rewrite split_no_sep by apply str_of_int_no_colon.
  rewrite int_of_str_of_int. reflexivity.
Qed.

(** A token minted for an id containing [':'] never decodes: its payload
    splits into three or more fields. *)
Theorem decode_mint_token_colon (rid : string) (now : Z) :
  contains ":" rid = true -> decode_token (mint_token rid now) = None.
Proof.
  intros Hc. unfold decode_token, mint_token.
  rewrite b64decode_b64encode. unfold utf8_decode.
  destruct (utf8_valid _); [|reflexivity].
  pose proof (length_split ":" (rid ++ ":" ++ str_of_int (int_time now))%string) as L.
  rewrite !count_char_app in L. apply contains_count in Hc.
  change (count_char ":" ":") with 1%nat in L.
  destruct (split ":" _) as [|w1 [|w2 [|w3 ws]]]; simpl in L; try lia. reflexivity.
Qed.

(** The id read back from any token that decodes has no [':']. *)
Theorem decode_token_id (tok tid : string) (ts : Z) :
  decode_token tok = Some (tid, ts) -> contains ":" tid = false.
Proof.
  unfold decode_token.
  destruct (b64decode tok) as [raw|]; [|discriminate].
  destruct (utf8_decode raw) as [dp|]; [|discriminate].
  destruct (split ":" dp) as [|w1 [|w2 [|w3 ws]]] eqn:E; try discriminate.
  destruct (int_of_str w2); [|discriminate]. intros [= <- _].
  apply (split_pieces ":" dp). rewrite E. left. reflexivity.
Qed.

(** [int(time.time())] is within one second of [time.time()]. *)
Lemma int_time_bound (now : Z) : - ticks < now - int_time now * ticks < ticks.
Proof.
  unfold int_time.
  assert (Ht : ticks <> 0) by (unfold ticks; lia).
  pose proof (Z.quot_rem now ticks Ht) as E.
  pose proof (Z.rem_bound_abs now ticks Ht) as B.
  unfold ticks in *. lia.
Qed.

Theorem not_expired_within (now d : Z) :
  0 <= d <= 299 * ticks -> is_expired (now + d) (int_time now) = false.
Proof.
  intros Hd. unfold is_expired. pose proof (int_time_bound now).
  unfold CONFIRMATION_TOKEN_VALIDITY_DURATION, ticks in *.
  rewrite Z.gtb_ltb. apply Z.ltb_ge. lia.
Qed.

Theorem expired_after (now d : Z) :
  301 * ticks <= d -> is_expired (now + d) (int_time now) = true.
Proof.
  intros Hd. unfold is_expired. pose proof (int_time_bound now).
  unfold CONFIRMATION_TOKEN_VALIDITY_DURATION, ticks in *.
  rewrite Z.gtb_ltb. apply Z.ltb_lt. lia.
Qed.

End TokenFacts.

(** ** The two-phase deletion tools *)

Module DeleteFacts.
Import Py App Delete TokenFacts.

Definition expired_msg : string :=
  "Confirmation token has expired. Please request a new token.".
Definition invalid_msg : string := "Invalid confirmation token.".

Ltac enter_tool Ha Hs :=
  unfold gmail_delete_draft_tool, gmail_delete_label_tool, check_access;
  rewrite Ha, Hs; cbn [token_missing default]; unfold id.

(** For an id that has no [':'] (and is an encodable string) the protocol
    of the draft tool runs as designed. *)
Theorem draft_round_trip (host : string) (g : GState) (svc : Service) (t0 : Z)
    (dd : string -> result unit) (rid other : string) :
  is_authenticated g = true -> google_gmail_service g = Some svc ->
  utf8_valid rid = true -> contains ":" rid = false -> other <> rid ->
  gmail_delete_draft_tool host g t0 dd rid None =
    ([("message", PStr ("Confirmation required to delete draft with ID '" ++ rid
                         ++ "'. Use the confirmation_token to confirm deletion.")%string);
      ("confirmation_token", PStr (mint_token rid t0));
      ("action", PStr "confirm_deletion")], []) /\
  snd (gmail_delete_draft_tool host g (t0 + 60 * ticks) dd rid (Some (mint_token rid t0)))
    = [DraftsDelete rid] /\
  gmail_delete_draft_tool host g (t0 + 301 * ticks) dd rid (Some (mint_token rid t0))
    = ([("error", PStr expired_msg)], []) /\
  gmail_delete_draft_tool host g (t0 + 60 * ticks) dd other (Some (mint_token rid t0))
    = ([("error", PStr "Invalid confirmation token. Parameters do not match.");
        ("details", PDict [("token_params", PDict [("draft_id", PStr rid)]);
                           ("request_params", PDict [("draft_id", PStr other)])])], []).
Proof.
  intros Ha Hs Hu Hc Hne.
  enter_tool Ha Hs.
  rewrite mint_token_nonempty, decode_mint_token by assumption.
  rewrite not_expired_within by (unfold ticks; lia).
  rewrite expired_after by (unfold ticks; lia).
  rewrite String.eqb_refl.
  assert (E : String.eqb rid other = false) by (apply String.eqb_neq; congruence).
  rewrite E. cbn [negb].
  repeat split. destruct (dd rid); reflexivity.
Qed.

(** The same for the label tool. *)
Theorem label_round_trip (host : string) (g : GState) (svc : Service) (t0 : Z)
    (ld : string -> result unit) (rid other : string) :
  is_authenticated g = true -> google_gmail_service g = Some svc ->
  utf8_valid rid = true -> contains ":" rid = false -> other <> rid ->
  snd (gmail_delete_label_tool host g t0 ld rid None) = [] /\
  get_key "confirmation_token" (fst (gmail_delete_label_tool host g t0 ld rid None))
    = Some (PStr (mint_token rid t0)) /\
  snd (gmail_delete_label_tool host g (t0 + 60 * ticks) ld rid (Some (mint_token rid t0)))
    = [LabelsDelete rid] /\
  gmail_delete_label_tool host g (t0 + 301 * ticks) ld rid (Some (mint_token rid t0))
    = ([("error", PStr expired_msg)], []) /\
  gmail_delete_label_tool host g (t0 + 60 * ticks) ld other (Some (mint_token rid t0))
    = ([("error", PStr "Invalid confirmation token. Parameters do not match, please request a new token.");
        ("details", PDict [("token_params", PDict [("label_id", PStr rid)]);
                           ("request_params", PDict [("label_id", PStr other)])])], []).
Proof.
  intros Ha Hs Hu Hc Hne.
  enter_tool Ha Hs.
  rewrite mint_token_nonempty, decode_mint_token by assumption.
  rewrite not_expired_within by (unfold ticks; lia).
  rewrite expired_after by (unfold ticks; lia).
  rewrite String.eqb_refl.
  assert (E : String.eqb rid other = false) by (apply String.eqb_neq; congruence).
  rewrite E. cbn [negb].
  repeat split. destruct (ld rid); reflexivity.
Qed.

(** Whatever token is given, a tool called with an id containing [':']
    issues no delete call. *)
Lemma draft_colon_no_call (host : string) (g : GState) (now : Z)
    (dd : string -> result unit) (rid : string) (tok : option string) :
  contains ":" rid = true -> snd (gmail_delete_draft_tool host g now dd rid tok) = [].
Proof.
  intros Hc. unfold gmail_delete_draft_tool.
  destruct (check_access g); [reflexivity|].
  destruct (google_gmail_service g); [|reflexivity].
  destruct (token_missing tok); [reflexivity|].
  destruct (decode_token _) as [[tid ts]|] eqn:D; [|reflexivity].
  apply decode_token_id in D.
  destruct (is_expired now ts); [reflexivity|].
  assert (E : String.eqb tid rid = false) by (apply String.eqb_neq; congruence).
  rewrite E. reflexivity.
Qed.

Lemma label_colon_no_call (host : string) (g : GState) (now : Z)
    (ld : string -> result unit) (rid : string) (tok : option string) :
  contains ":" rid = true -> snd (gmail_delete_label_tool host g now ld rid tok) = [].
Proof.
  intros Hc. unfold gmail_delete_label_tool.
  destruct (check_access g); [reflexivity|].
  destruct (google_gmail_service g); [|reflexivity].
  destruct (token_missing tok); [reflexivity|].
  destruct (decode_token _) as [[tid ts]|] eqn:D; [|reflexivity].
  apply decode_token_id in D.
  destruct (is_expired now ts); [reflexivity|].
  assert (E : String.eqb tid rid = false) by (apply String.eqb_neq; congruence).
  rewrite E. reflexivity.
Qed.

End DeleteFacts.

(* ------------------------------------------------------------------ *)
(** ** Claims about the deletion tools *)

Module DeleteClaims.
Import Py App Delete TokenFacts DeleteFacts Fixtures.

(** C1: the documented round trip fails for the resource id ["a:b"]:
    the token minted by the first call, passed back with the same id
    60 seconds later, is rejected as invalid and nothing is deleted
    (by either tool); so is the expired call (invalid, not expired) and
    the call with a different id (invalid, not a mismatch). *)
Theorem C1_round_trip_colon_id :
  gmail_delete_draft_tool host authed (t0 + 60 * ticks) delete_ok "a:b"
      (Some (mint_token "a:b" t0)) = ([("error", PStr invalid_msg)], []) /\
  gmail_delete_label_tool host authed (t0 + 60 * ticks) delete_ok "a:b"
      (Some (mint_token "a:b" t0)) = ([("error", PStr invalid_msg)], []) /\
  gmail_delete_draft_tool host authed (t0 + 301 * ticks) delete_ok "a:b"
      (Some (mint_token "a:b" t0)) = ([("error", PStr invalid_msg)], []) /\
  gmail_delete_draft_tool host authed (t0 + 60 * ticks) delete_ok "c"
      (Some (mint_token "a:b" t0)) = ([("error", PStr invalid_msg)], []).
Proof. vm_compute. repeat split. Qed.

(** C6: the expired-token, mismatch and invalid-token results of the
    deletion tools carry no ["status"] field (here for ["draft-123"]
    minted at [t0], and the token ["!!"]). *)
Theorem C6_failures_lack_status :
  has_key "status" (fst (gmail_delete_draft_tool host authed (t0 + 301 * ticks) delete_ok
      "draft-123" (Some (mint_token "draft-123" t0)))) = false /\
  get_key "error" (fst (gmail_delete_draft_tool host authed (t0 + 301 * ticks) delete_ok
      "draft-123" (Some (mint_token "draft-123" t0)))) = Some (PStr expired_msg) /\
  has_key "status" (fst (gmail_delete_draft_tool host authed (t0 + 60 * ticks) delete_ok
      "draft-456" (Some (mint_token "draft-123" t0)))) = false /\
  has_key "status" (fst (gmail_delete_draft_tool host authed t0 delete_ok
      "draft-123" (Some "!!"))) = false /\
  has_key "status" (fst (gmail_delete_label_tool host authed (t0 + 301 * ticks) delete_ok
      "Label_1" (Some (mint_token "Label_1" t0)))) = false /\
  has_key "status" (fst (gmail_delete_label_tool host authed (t0 + 60 * ticks) delete_ok
      "Label_2" (Some (mint_token "Label_1" t0)))) = false /\
  has_key "status" (fst (gmail_delete_label_tool host authed t0 delete_ok
      "Label_1" (Some "!!"))) = false.
Proof. vm_compute. repeat split. Qed.

(** C10: for every id containing [':'], the token minted for it, passed
    back with the same id at any later time, is answered with
    ["Invalid confirmation token."] and no call; and no token whatsoever
    makes either tool issue a delete for such an id. *)
Theorem C10_colon_ids_undeletable (host' : string) (g : GState) (svc : Service)
    (t t' : Z) (dd ld : string -> result unit) (rid : string) :
  is_authenticated g = true -> google_gmail_service g = Some svc ->
  contains ":" rid = true ->
  gmail_delete_draft_tool host' g t' dd rid (Some (mint_token rid t))
    = ([("error", PStr invalid_msg)], []) /\
  gmail_delete_label_tool host' g t' ld rid (Some (mint_token rid t))
    = ([("error", PStr invalid_msg)], []) /\
  (forall now tok, snd (gmail_delete_draft_tool host' g now dd rid tok) = []) /\
  (forall now tok, snd (gmail_delete_label_tool host' g now ld rid tok) = []).
Proof.
  intros Ha Hs Hc. split; [|split; [|split]].
  - enter_tool Ha Hs. rewrite mint_token_nonempty, decode_mint_token_colon by exact Hc.
    reflexivity.
  - enter_tool Ha Hs. rewrite mint_token_nonempty, decode_mint_token_colon by exact Hc.
    reflexivity.
  - intros now tok. apply draft_colon_no_call, Hc.
  - intros now tok. apply label_colon_no_call, Hc.
Qed.

Lemma C10_witness :
  (is_authenticated authed = true /\ google_gmail_service authed = Some (mkService some_creds)
   /\ contains ":" "thread:42" = true) /\
  gmail_delete_draft_tool host authed (t0 + 60 * ticks) delete_ok "thread:42"
      (Some (mint_token "thread:42" t0)) = ([("error", PStr invalid_msg)], []).
Proof.
  split; [split; [reflexivity | split; reflexivity]|].
  apply (C10_colon_ids_undeletable host authed (mkService some_creds) t0 (t0 + 60 * ticks)
           delete_ok delete_ok "thread:42"); reflexivity.
Defined.

Lemma draft_round_trip_witness :
  snd (gmail_delete_draft_tool host authed (t0 + 60 * ticks) delete_ok "draft-123"
         (Some (mint_token "draft-123" t0))) = [DraftsDelete "draft-123"].
Proof.
  refine (proj1 (proj2 (draft_round_trip host authed (mkService some_creds) t0 delete_ok
            "draft-123" "draft-456" _ _ _ _ _))).
  - reflexivity.
  - reflexivity.
  - vm_compute. reflexivity.
  - vm_compute. reflexivity.
  - discriminate.
Defined.

Lemma label_round_trip_witness :
  snd (gmail_delete_label_tool host authed (t0 + 60 * ticks) delete_ok "Label_7"
         (Some (mint_token "Label_7" t0))) = [LabelsDelete "Label_7"].
Proof.
  refine (proj1 (proj2 (proj2 (label_round_trip host authed (mkService some_creds) t0 delete_ok
            "Label_7" "Label_8" _ _ _ _ _)))).
  - reflexivity.
  - reflexivity.
  - vm_compute. reflexivity.
  - vm_compute. reflexivity.
  - discriminate.
Defined.

End DeleteClaims.

(** ** The reconciliation loop *)

Module ReconcileFacts.
Import Py App Reconcile.

Section Loop.
Context {Mailbox : Type}.
Variable step : Mailbox -> string -> result Mailbox * list api_call.
Hypothesis step_about : forall mb m r l, step mb m = (r, l) -> Forall (fun c => about m c = true) l.

Lemma runs_about mb ids mb' log :
  runs Mailbox step mb ids mb' log ->
  Forall (fun c => exists m, In m ids /\ about m c = true) log.
Proof.
  induction 1 as [|mb m rest mb1 l1 mb2 l2 S R IH]; [constructor|].
  apply Forall_app; split.
  - eapply Forall_impl; [exact (step_about _ _ _ _ S)|]. intros c Hc. exists m. simpl; auto.
  - eapply Forall_impl; [exact IH|]. intros c (m' & Hin & Hc). exists m'. simpl; auto.
Qed.

Lemma for_each_outcome ids mb mb' log err :
  for_each Mailbox step ids mb = (mb', log, err) ->
  batch_outcome Mailbox step mb ids mb' log err.
Proof.
  revert mb mb' log err.
  induction ids as [|m rest IH]; intros mb mb' log err H.
  - simpl in H. injection H as <- <- <-. constructor.
  - simpl in H. destruct (step mb m) as [r l] eqn:S. destruct r as [mb1|e].
    + destruct (for_each Mailbox step rest mb1) as [[mb2 l2] err2] eqn:F.
      injection H as <- <- <-. specialize (IH _ _ _ _ F).
      destruct err2 as [[mid e]|]; simpl in IH |- *.
      * destruct IH as (pre & post & mbp & logp & flog & Hids & R & Sf & -> & -> & Hab).
        exists (m :: pre), post, mbp, (l ++ logp), flog.
        split; [simpl; congruence|]. split; [econstructor; eassumption|].
        split; [exact Sf|]. split; [reflexivity|]. split; [apply app_assoc|].
        apply Forall_app; split.
        -- eapply Forall_impl; [exact (step_about _ _ _ _ S)|].
           intros c Hc. exists m. simpl; auto.
        -- eapply Forall_impl; [exact Hab|]. intros c (m' & Hin & Hc).
           exists m'. simpl; auto.
      * econstructor; eassumption.
    + injection H as <- <- <-. simpl.
      exists [], rest, mb, [], l. repeat split; try reflexivity; [constructor|exact S|].
      eapply Forall_impl; [exact (step_about _ _ _ _ S)|]. intros c Hc. exists m. simpl; auto.
Qed.

End Loop.

Lemma about_refl m : about m (MessagesGet m) = true /\
  forall r a, about m (MessagesModify m r a) = true.
Proof. unfold about. rewrite String.eqb_refl. auto. Qed.

Lemma move_one_about {Mailbox : Type} get modify F tid :
  forall (mb : Mailbox) m r l, move_one Mailbox get modify F tid mb m = (r, l) ->
  Forall (fun c => about m c = true) l.
Proof.
  intros mb m r l. unfold move_one. destruct (about_refl m) as [A1 A2].
  destruct (get mb m); intros [= _ <-]; repeat constructor; auto.
Qed.

Lemma archive_one_about {Mailbox : Type} get modify F :
  forall (mb : Mailbox) m r l, archive_one Mailbox get modify F mb m = (r, l) ->
  Forall (fun c => about m c = true) l.
Proof.
  intros mb m r l. unfold archive_one. destruct (about_refl m) as [A1 A2].
  destruct (get mb m); intros [= _ <-]; repeat constructor; auto.
Qed.

(** The catalog lookup misses exactly the names absent from it. *)
Lemma label_name_to_id_absent (all_labels : list Label) (name : string) :
  ~ In name (map label_name all_labels) -> label_name_to_id all_labels !! name = None.
Proof.
  unfold label_name_to_id.
  assert (G : forall (m : gmap string string) ls, ~ In name (map label_name ls) ->
    fold_left (fun m l => <[label_name l := label_id l]> m) ls m !! name = m !! name).
  { intros m ls. revert m. induction ls as [|l ls IH]; intros m Hn; [reflexivity|].
    simpl in Hn |- *. rewrite IH by tauto. apply lookup_insert_ne. tauto. }
  intros Hn. rewrite G by exact Hn. apply lookup_empty.
Qed.

(** On the Gmail store, a loop step that succeeds rewrites the labels of
    its message and nothing else. *)

Lemma move_one_gmail F tid (mb mb1 : (gmap string (gset string))) m l :
  move_one (gmap string (gset string)) gmail_get gmail_modify F tid mb m = (Ok mb1, l) ->
  exists ls, mb !! m = Some ls /\
    mb1 = <[m := (ls ∖ filter (fun x => x ∈ F /\ x <> tid) ls) ∪ {[tid]}]> mb.
Proof.
  unfold move_one, gmail_get, gmail_modify.
  destruct (mb !! m) as [ls|] eqn:E; [|inversion 1].
  cbv zeta. intros H. inversion H; subst. exists ls. split; [reflexivity|].
  rewrite list_to_set_elements_L. f_equal. set_solver.
Qed.

Lemma archive_one_gmail F (mb mb1 : (gmap string (gset string))) m l :
  archive_one (gmap string (gset string)) gmail_get gmail_modify F mb m = (Ok mb1, l) ->
  exists ls, mb !! m = Some ls /\ mb1 = <[m := ls ∖ filter (fun x => x ∈ F) ls]> mb.
Proof.
  unfold archive_one, gmail_get, gmail_modify.
  destruct (mb !! m) as [ls|] eqn:E; [|inversion 1].
  cbv zeta. intros H. inversion H; subst. exists ls. split; [reflexivity|].
  rewrite list_to_set_elements_L. f_equal. set_solver.
Qed.

Section Update.
Variable step : gmap string (gset string) -> string -> result (gmap string (gset string)) * list api_call.
Variable f : gset string -> gset string.
Variable P : gset string -> Prop.
Variable F : gset string.
Hypothesis step_update : forall mb m mb1 l, step mb m = (Ok mb1, l) ->
  exists ls, mb !! m = Some ls /\ mb1 = <[m := f ls]> mb.
Hypothesis f_post : forall ls, P (f ls).
Hypothesis f_frame : forall ls, f ls ∖ F = ls ∖ F.

Lemma runs_update mb ids mb' log :
  runs (gmap string (gset string)) step mb ids mb' log ->
  (forall m, In m ids -> exists ls, mb' !! m = Some ls /\ P ls) /\
  (forall m, ~ In m ids -> mb' !! m = mb !! m) /\
  (forall m, (fun ls => ls ∖ F) <$> mb' !! m = (fun ls => ls ∖ F) <$> mb !! m).
Proof.
  induction 1 as [mb|mb m rest mb1 l1 mb2 l2 S R (IH1 & IH2 & IH3)].
  - split; [intros m []|]. split; reflexivity.
  - destruct (step_update _ _ _ _ S) as (ls & E & ->).
    split; [|split].
    + intros m' Hin. destruct (in_dec string_dec m' rest) as [Hr|Hr]; [exact (IH1 m' Hr)|].
      destruct Hin as [<-|Hin]; [|contradiction].
      rewrite (IH2 m Hr), lookup_insert_eq. eexists; split; [reflexivity|apply f_post].
    + intros m' Hn. simpl in Hn. rewrite (IH2 m' ltac:(tauto)).
      apply lookup_insert_ne. tauto.
    + intros m'. rewrite IH3. destruct (decide (m = m')) as [<-|Hne].
      * rewrite lookup_insert_eq, E. simpl. rewrite f_frame. reflexivity.
      * rewrite lookup_insert_ne by exact Hne. reflexivity.
Qed.
End Update.

Lemma move_post (F : gset string) (tid : string) (ls : gset string) : tid ∈ F ->
  ((ls ∖ filter (fun x => x ∈ F /\ x <> tid) ls) ∪ {[tid]}) ∩ F = {[tid]}.
Proof.
  intros Ht. apply set_eq. intros x. rewrite elem_of_intersection, elem_of_union,
    elem_of_difference, elem_of_filter, !elem_of_singleton.
  destruct (decide (x = tid)); naive_solver.
Qed.

Lemma move_frame (F : gset string) (tid : string) (ls : gset string) : tid ∈ F ->
  ((ls ∖ filter (fun x => x ∈ F /\ x <> tid) ls) ∪ {[tid]}) ∖ F = ls ∖ F.
Proof.
  intros Ht. apply set_eq. intros x. rewrite !elem_of_difference, elem_of_union,
    elem_of_difference, elem_of_filter, !elem_of_singleton.
  destruct (decide (x = tid)); destruct (decide (x ∈ F)); naive_solver.
Qed.

Lemma archive_post (F ls : gset string) : (ls ∖ filter (fun x => x ∈ F) ls) ∩ F = ∅.
Proof. set_solver. Qed.

Lemma archive_frame (F ls : gset string) : (ls ∖ filter (fun x => x ∈ F) ls) ∖ F = ls ∖ F.
Proof.
  apply set_eq. intros x. rewrite !elem_of_difference, elem_of_filter.
  destruct (decide (x ∈ F)); naive_solver.
Qed.

End ReconcileFacts.

(** ** The move and archive tools *)

Module ReconcileTools.
Import Py App Reconcile ReconcileFacts.

Definition moved_msg (name : string) : pydict :=
  [("status", PStr "success");
   ("message", PStr ("Email(s) successfully moved to '" ++ name ++ "'")%string)].
Definition archived_msg : pydict :=
  [("status", PStr "success");
   ("message", PStr "Email(s) successfully had all labels removed.")].

Ltac no_success :=
  let H := fresh in intros H; cbn in H; congruence.

Lemma check_access_status g p :
  check_access g = Some p -> get_key "status" p = Some (PStr "error").
Proof.
  unfold check_access. destruct (is_authenticated g); [discriminate|].
  intros [= <-]. reflexivity.
Qed.

Lemma modify_error_status mid e :
  get_key "status" (modify_error mid e) = Some (PStr "error").
Proof. destruct e; reflexivity. Qed.

(** A move that reports success went through the whole loop. *)
Lemma move_tool_success {Mailbox : Type} get modify host g labels
    (mb mb' : Mailbox) ids name d log :
  gmail_move_emails_tool Mailbox get modify host g (Ok labels) mb ids name = (Ok d, mb', log) ->
  get_key "status" d = Some (PStr "success") ->
  check_access g = None /\ is_Some (google_gmail_service g) /\ d = moved_msg name /\
  exists tid rest, label_name_to_id labels !! name = Some tid /\ log = LabelsList :: rest /\
    for_each Mailbox (move_one Mailbox get modify (folder_label_ids labels) tid) ids mb
      = (mb', rest, None).
Proof.
  unfold gmail_move_emails_tool.
  destruct (check_access g) as [p|] eqn:CA.
  { intros E; inversion E; subst. apply check_access_status in CA. congruence. }
  destruct (google_gmail_service g) eqn:GS; [|intros E; inversion E; subst; no_success].
  destruct (label_name_to_id labels !! name) as [tid|] eqn:L;
    [|intros E; inversion E; subst; no_success].
  cbv zeta. destruct (for_each _ _ _ _) as [[mb2 l2] err] eqn:FE.
  destruct err as [[mid e]|].
  - intros E; inversion E; subst. rewrite modify_error_status. congruence.
  - intros E; inversion E; subst. intros _.
    split; [reflexivity|]. split; [eexists; reflexivity|]. split; [reflexivity|].
    exists tid, l2. auto.
Qed.

Lemma archive_tool_success {Mailbox : Type} get modify host g labels
    (mb mb' : Mailbox) ids d log :
  gmail_archive_emails_tool Mailbox get modify host g (Ok labels) mb ids = (Ok d, mb', log) ->
  get_key "status" d = Some (PStr "success") ->
  check_access g = None /\ is_Some (google_gmail_service g) /\ d = archived_msg /\
  exists rest, log = LabelsList :: rest /\
    for_each Mailbox (archive_one Mailbox get modify (folder_label_ids labels)) ids mb
      = (mb', rest, None).
Proof.
  unfold gmail_archive_emails_tool.
  destruct (check_access g) as [p|] eqn:CA.
  { intros E; inversion E; subst. apply check_access_status in CA. congruence. }
  destruct (google_gmail_service g) eqn:GS; [|intros E; inversion E; subst; no_success].
  cbv zeta. destruct (for_each _ _ _ _) as [[mb2 l2] err] eqn:FE.
  destruct err as [[mid e]|].
  - intros E; inversion E; subst. rewrite modify_error_status. congruence.
  - intros E; inversion E; subst. intros _.
    split; [reflexivity|]. split; [eexists; reflexivity|]. split; [reflexivity|].
    exists l2. auto.
Qed.

(** On the Gmail store: after a successful move every listed message has
    exactly the target among its folder labels, and no message changed
    outside the folder labels. *)
Lemma move_gmail_effect host g labels mb ids name tid d mb' log :
  gmail_move_emails_tool _ gmail_get gmail_modify host g (Ok labels) mb ids name = (Ok d, mb', log) ->
  get_key "status" d = Some (PStr "success") ->
  label_name_to_id labels !! name = Some tid -> tid ∈ folder_label_ids labels ->
  (forall m, In m ids -> exists ls, mb' !! m = Some ls /\ ls ∩ folder_label_ids labels = {[tid]}) /\
  (forall m, ~ In m ids -> mb' !! m = mb !! m) /\
  (forall m, (fun ls => ls ∖ folder_label_ids labels) <$> mb' !! m
             = (fun ls => ls ∖ folder_label_ids labels) <$> mb !! m).
Proof.
  intros E S L Ht.
  destruct (move_tool_success _ _ _ _ _ _ _ _ _ _ _ E S)
    as (_ & _ & _ & tid' & rest & L' & _ & FE).
  rewrite L in L'. injection L' as <-.
  apply for_each_outcome in FE; [|apply move_one_about]. simpl in FE.
  eapply (runs_update _ _ (fun ls => ls ∩ folder_label_ids labels = {[tid]})); [| | |exact FE].
  - intros mb0 m mb1 l S1. exact (move_one_gmail _ _ _ _ _ _ S1).
  - intros ls. apply move_post, Ht.
  - intros ls. apply move_frame, Ht.
Qed.

Lemma archive_gmail_effect host g labels mb ids d mb' log :
  gmail_archive_emails_tool _ gmail_get gmail_modify host g (Ok labels) mb ids = (Ok d, mb', log) ->
  get_key "status" d = Some (PStr "success") ->
  (forall m, In m ids -> exists ls, mb' !! m = Some ls /\ ls ∩ folder_label_ids labels = ∅) /\
  (forall m, ~ In m ids -> mb' !! m = mb !! m) /\
  (forall m, (fun ls => ls ∖ folder_label_ids labels) <$> mb' !! m
             = (fun ls => ls ∖ folder_label_ids labels) <$> mb !! m).
Proof.
  intros E S.
  destruct (archive_tool_success _ _ _ _ _ _ _ _ _ _ E S) as (_ & _ & _ & rest & _ & FE).
  apply for_each_outcome in FE; [|apply archive_one_about]. simpl in FE.
  eapply (runs_update _ _ (fun ls => ls ∩ folder_label_ids labels = ∅)); [| | |exact FE].
  - intros mb0 m mb1 l S1. exact (archive_one_gmail _ _ _ _ _ S1).
  - intros ls. apply archive_post.
  - intros ls. apply archive_frame.
Qed.

(** Once every listed message has exactly the target among its folder
    labels, the loop of [move] removes nothing and changes nothing. *)
Lemma move_loop_settled (F : gset string) tid (mb : gmap string (gset string)) ids :
  (forall m, In m ids -> exists ls, mb !! m = Some ls /\ ls ∩ F = {[tid]}) ->
  for_each _ (move_one _ gmail_get gmail_modify F tid) ids mb
    = (mb, flat_map (fun m => [MessagesGet m; MessagesModify m [] [tid]]) ids, None).
Proof.
  induction ids as [|m rest IH]; intros H; [reflexivity|].
  destruct (H m (or_introl eq_refl)) as (ls & E & Hls).
  assert (S1 : move_one _ gmail_get gmail_modify F tid mb m
                = (Ok mb, [MessagesGet m; MessagesModify m [] [tid]])).
  { unfold move_one, gmail_get, gmail_modify. rewrite E. cbv zeta.
    assert (R : filter (fun x => x ∈ F /\ x <> tid) ls = ∅) by set_solver.
    rewrite R, elements_empty. simpl list_to_set.
    assert (U : ls ∖ ∅ ∪ ({[tid]} ∪ ∅) = ls) by set_solver.
    rewrite U, insert_id by exact E. reflexivity. }
  cbn [for_each]. rewrite S1.
  rewrite IH by (intros m' Hm'; apply H; right; exact Hm'). reflexivity.
Qed.

End ReconcileTools.

(** ** Claims about the move and archive tools *)

Module ReconcileClaims.
Import Py App Reconcile ReconcileFacts ReconcileTools Fixtures.

(** C2: on the Gmail store, after a move to a folder label of the catalog
    reports success, every listed message has exactly the target among
    its folder labels; after an archive reports success it has none; and
    neither changes any label outside the folder labels, of any message. *)
Theorem C2_folder_exclusivity (host' : string) (g : GState) (all_labels : list Label) :
  (forall mb ids name tid d mb' log,
     gmail_move_emails_tool _ gmail_get gmail_modify host' g (Ok all_labels) mb ids name
       = (Ok d, mb', log) ->
     get_key "status" d = Some (PStr "success") ->
     label_name_to_id all_labels !! name = Some tid -> tid ∈ folder_label_ids all_labels ->
     (forall m, In m ids ->
        exists ls, mb' !! m = Some ls /\ ls ∩ folder_label_ids all_labels = {[tid]}) /\
     (forall m, (fun ls => ls ∖ folder_label_ids all_labels) <$> mb' !! m
                = (fun ls => ls ∖ folder_label_ids all_labels) <$> mb !! m)) /\
  (forall mb ids d mb' log,
     gmail_archive_emails_tool _ gmail_get gmail_modify host' g (Ok all_labels) mb ids
       = (Ok d, mb', log) ->
     get_key "status" d = Some (PStr "success") ->
     (forall m, In m ids ->
        exists ls, mb' !! m = Some ls /\ ls ∩ folder_label_ids all_labels = ∅) /\
     (forall m, (fun ls => ls ∖ folder_label_ids all_labels) <$> mb' !! m
                = (fun ls => ls ∖ folder_label_ids all_labels) <$> mb !! m)).
Proof.
  split.
  - intros mb ids name tid d mb' log E S L Ht.
    destruct (move_gmail_effect _ _ _ _ _ _ _ _ _ _ E S L Ht) as (H1 & _ & H3). auto.
  - intros mb ids d mb' log E S.
    destruct (archive_gmail_effect _ _ _ _ _ _ _ _ E S) as (H1 & _ & H3). auto.
Qed.

Lemma C2_witness :
  (exists ls, snd (fst (gmail_move_emails_tool _ gmail_get gmail_modify host authed
                   (Ok labels) mailbox ["m1"; "m2"] "TRASH")) !! "m1" = Some ls /\
     ls ∩ folder_label_ids labels = {[ "TRASH" ]}) /\
  (exists ls, snd (fst (gmail_archive_emails_tool _ gmail_get gmail_modify host authed
                   (Ok labels) mailbox ["m1"])) !! "m1" = Some ls /\
     ls ∩ folder_label_ids labels = ∅).
Proof.
  destruct (C2_folder_exclusivity host authed labels) as [Hm Ha]. split.
  - destruct (Hm mailbox ["m1"; "m2"] "TRASH" "TRASH" (ReconcileTools.moved_msg "TRASH")
      (snd (fst (gmail_move_emails_tool _ gmail_get gmail_modify host authed
                   (Ok labels) mailbox ["m1"; "m2"] "TRASH")))
      (snd (gmail_move_emails_tool _ gmail_get gmail_modify host authed
                   (Ok labels) mailbox ["m1"; "m2"] "TRASH")))
      as [H1 _].
    + vm_compute. reflexivity.
    + reflexivity.
    + vm_compute. reflexivity.
    + refine (bool_decide_eq_true_1 _ _). vm_compute. reflexivity.
    + exact (H1 "m1" (or_introl eq_refl)).
  - destruct (Ha mailbox ["m1"] ReconcileTools.archived_msg
      (snd (fst (gmail_archive_emails_tool _ gmail_get gmail_modify host authed
                   (Ok labels) mailbox ["m1"])))
      (snd (gmail_archive_emails_tool _ gmail_get gmail_modify host authed
                   (Ok labels) mailbox ["m1"])))
      as [H1 _].
    + vm_compute. reflexivity.
    + reflexivity.
    + exact (H1 "m1" (or_introl eq_refl)).
Defined.

(** C3: after a move reports success, repeating it on the resulting store
    returns the same result, leaves the store as it is, asks to remove no
    label from any message, and every listed message keeps exactly the
    target among its folder labels. *)
Theorem C3_move_idempotent (host' : string) (g : GState) (all_labels : list Label)
    (mb : gmap string (gset string)) (ids : list string) (name tid : string)
    (d : pydict) (mb1 : gmap string (gset string)) (log1 : list api_call) :
  gmail_move_emails_tool _ gmail_get gmail_modify host' g (Ok all_labels) mb ids name
    = (Ok d, mb1, log1) ->
  get_key "status" d = Some (PStr "success") ->
  label_name_to_id all_labels !! name = Some tid -> tid ∈ folder_label_ids all_labels ->
  gmail_move_emails_tool _ gmail_get gmail_modify host' g (Ok all_labels) mb1 ids name
    = (Ok d, mb1,
       LabelsList :: flat_map (fun m => [MessagesGet m; MessagesModify m [] [tid]]) ids) /\
  (forall m, In m ids ->
     exists ls, mb1 !! m = Some ls /\ ls ∩ folder_label_ids all_labels = {[tid]}).
Proof.
  intros E S L Ht.
  destruct (move_gmail_effect _ _ _ _ _ _ _ _ _ _ E S L Ht) as (H1 & _ & _).
  destruct (move_tool_success _ _ _ _ _ _ _ _ _ _ _ E S) as (CA & [svc GS] & -> & _).
  split; [|exact H1].
  unfold gmail_move_emails_tool. rewrite CA, GS, L. cbv zeta.
  rewrite move_loop_settled by exact H1. reflexivity.
Qed.

Lemma C3_witness :
  gmail_move_emails_tool _ gmail_get gmail_modify host authed (Ok labels)
    (snd (fst (gmail_move_emails_tool _ gmail_get gmail_modify host authed
                 (Ok labels) mailbox ["m1"; "m2"] "INBOX"))) ["m1"; "m2"] "INBOX"
  = (Ok (ReconcileTools.moved_msg "INBOX"),
     snd (fst (gmail_move_emails_tool _ gmail_get gmail_modify host authed
                 (Ok labels) mailbox ["m1"; "m2"] "INBOX")),
     [LabelsList; MessagesGet "m1"; MessagesModify "m1" [] ["INBOX"];
      MessagesGet "m2"; MessagesModify "m2" [] ["INBOX"]]).
Proof.
  apply (C3_move_idempotent host authed labels mailbox ["m1"; "m2"] "INBOX" "INBOX"
           (ReconcileTools.moved_msg "INBOX")
           (snd (fst (gmail_move_emails_tool _ gmail_get gmail_modify host authed
                        (Ok labels) mailbox ["m1"; "m2"] "INBOX")))
           (snd (gmail_move_emails_tool _ gmail_get gmail_modify host authed
                        (Ok labels) mailbox ["m1"; "m2"] "INBOX"))).
  - vm_compute. reflexivity.
  - reflexivity.
  - vm_compute. reflexivity.
  - refine (bool_decide_eq_true_1 _ _). vm_compute. reflexivity.
Defined.

(** C8: for any server, a move to a label name absent from the catalog
    answers ["Label '<name>' not found."] after listing the labels only:
    no message is fetched or modified and the store is unchanged. *)
Theorem C8_unknown_folder {Mailbox : Type}
    (get : Mailbox -> string -> result (gset string))
    (modify : Mailbox -> string -> list string -> list string -> result Mailbox)
    (host' : string) (g : GState) (svc : Service) (all_labels : list Label)
    (mb : Mailbox) (ids : list string) (name : string) :
  is_authenticated g = true -> google_gmail_service g = Some svc ->
  name ∉ map label_name all_labels ->
  gmail_move_emails_tool Mailbox get modify host' g (Ok all_labels) mb ids name
    = (Ok [("status", PStr "error");
           ("error", PStr ("Label '" ++ name ++ "' not found.")%string)], mb, [LabelsList]).
Proof.
  intros Ha Hs Hn. unfold gmail_move_emails_tool, check_access. rewrite Ha, Hs.
  rewrite label_name_to_id_absent by (rewrite <- list_elem_of_In; exact Hn).
  reflexivity.
Qed.

Lemma C8_witness :
  gmail_move_emails_tool _ gmail_get gmail_modify host authed (Ok labels) mailbox
    ["m1"; "m2"] "NoSuchLabel"
  = (Ok [("status", PStr "error"); ("error", PStr "Label 'NoSuchLabel' not found.")],
     mailbox, [LabelsList]).
Proof.
  apply (C8_unknown_folder gmail_get gmail_modify host authed (mkService some_creds)).
  - reflexivity.
  - reflexivity.
  - refine (bool_decide_eq_true_1 _ _). vm_compute. reflexivity.
Defined.

(** C9: for any server, move and archive run their loop over the ids in
    list order; they report success iff every id went through, and
    otherwise report the failure of the first id that failed, leaving the
    store as the ids before it left it, with no call about a later id. *)
Theorem C9_batch_abort {Mailbox : Type}
    (get : Mailbox -> string -> result (gset string))
    (modify : Mailbox -> string -> list string -> list string -> result Mailbox)
    (host' : string) (g : GState) (svc : Service) (all_labels : list Label)
    (mb : Mailbox) (ids : list string) :
  is_authenticated g = true -> google_gmail_service g = Some svc ->
  (forall name tid, label_name_to_id all_labels !! name = Some tid ->
     exists mb' log err,
       gmail_move_emails_tool Mailbox get modify host' g (Ok all_labels) mb ids name
         = (Ok (match err with
                | None => moved_msg name
                | Some (mid, e) => modify_error mid e
                end), mb', LabelsList :: log) /\
       batch_outcome Mailbox (move_one Mailbox get modify (folder_label_ids all_labels) tid)
         mb ids mb' log err) /\
  (exists mb' log err,
     gmail_archive_emails_tool Mailbox get modify host' g (Ok all_labels) mb ids
       = (Ok (match err with
              | None => archived_msg
              | Some (mid, e) => modify_error mid e
              end), mb', LabelsList :: log) /\
     batch_outcome Mailbox (archive_one Mailbox get modify (folder_label_ids all_labels))
       mb ids mb' log err).
Proof.
  intros Ha Hs. split.
  - intros name tid L.
    destruct (for_each Mailbox (move_one Mailbox get modify (folder_label_ids all_labels) tid)
                ids mb) as [[mb' log] err] eqn:FE.
    exists mb', log, err. split.
    + unfold gmail_move_emails_tool, check_access. rewrite Ha, Hs, L. cbv zeta.
      rewrite FE. destruct err as [[mid e]|]; reflexivity.
    + apply for_each_outcome; [apply move_one_about | exact FE].
  - destruct (for_each Mailbox (archive_one Mailbox get modify (folder_label_ids all_labels))
                ids mb) as [[mb' log] err] eqn:FE.
    exists mb', log, err. split.
    + unfold gmail_archive_emails_tool, check_access. rewrite Ha, Hs. cbv zeta.
      rewrite FE. destruct err as [[mid e]|]; reflexivity.
    + apply for_each_outcome; [apply archive_one_about | exact FE].
Qed.

Lemma C9_witness :
  exists mb' log err,
    gmail_archive_emails_tool _ gmail_get gmail_modify host authed (Ok labels) mailbox
      ["m1"; "m3"; "m2"]
      = (Ok (match err with
             | None => archived_msg
             | Some (mid, e) => modify_error mid e
             end), mb', LabelsList :: log) /\
    batch_outcome _ (archive_one _ gmail_get gmail_modify (folder_label_ids labels))
      mailbox ["m1"; "m3"; "m2"] mb' log err.
Proof.
  refine (proj2 (C9_batch_abort gmail_get gmail_modify host authed (mkService some_creds)
                   labels mailbox ["m1"; "m3"; "m2"] _ _)); reflexivity.
Defined.

End ReconcileClaims.

(** ** The authentication middleware *)

Module MiddlewareFacts.
Import Py App Middleware.

Section Runs.
Context (APP_HOST : string) {DB : Type}
  (get_credentials : DB -> string -> result (option pydict))
  (update_access_token : DB -> string -> option string -> result DB)
  (from_authorized_user_info : pyval -> result Creds)
  (refresh : Creds -> result Creds)
  (verify_oauth2_token : option string -> option string -> result (list (string * string)))
  (build : Creds -> result Service)
  {Resp : Type} (call_next : GState -> result Resp).

Definition no_call_next (l : list (event DB)) : Prop :=
  Forall (fun ev => is_call_next ev = false) l.

Lemma refresh_flow_calls creds db r l :
  refresh_flow DB update_access_token refresh verify_oauth2_token creds db = (r, l) ->
  no_call_next l.
Proof.
  unfold refresh_flow, no_call_next. intros H.
  repeat match type of H with
  | context [match ?x with _ => _ end] => destruct x eqn:?
  end;
  injection H; intros; subst; repeat constructor.
Qed.

Ltac no_cn :=
  unfold no_call_next in *; simpl;
  repeat (first [apply Forall_app; split | constructor | assumption]).

(** The outer [try] block either raised before calling the next handler,
    or its last step is the call of the next handler, whose outcome it
    returns. *)
Lemma body_shape g0 db hdr r g db' log x :
  dispatch_body APP_HOST get_credentials update_access_token from_authorized_user_info
    refresh verify_oauth2_token build call_next g0 db hdr = (r, g, db', log, x) ->
  (no_call_next log /\ exists e, r = Raise e) \/
  (exists pre, log = pre ++ [CallNext g] /\ no_call_next pre /\ r = call_next g).
Proof.
  unfold dispatch_body, forward, publish. intros H.
  repeat match type of H with
  | context [match ?x with _ => _ end] => destruct x eqn:?
  end;
  injection H; intros; subst.
  all: try match goal with
       | E : refresh_flow _ _ _ _ _ _ = _ |- _ => apply refresh_flow_calls in E
       end.
  all: first
  [ match goal with |- _ \/ exists pre, ?l = _ /\ _ =>
      match l with
      | ?a :: (?b ++ [_]) => right; exists (a :: b)
      | ?b ++ [_] => right; exists b
      | _ => right; exists (removelast l)
      end
    end;
    split; [reflexivity | split; [no_cn | reflexivity]]
  | left; split; [no_cn | eexists; reflexivity] ].
Qed.

End Runs.

Section Outer.
Context (APP_HOST : string) {DB : Type}
  (get_credentials : DB -> string -> result (option pydict))
  (update_access_token : DB -> string -> option string -> result DB)
  (from_authorized_user_info : pyval -> result Creds)
  (refresh : Creds -> result Creds)
  (verify_oauth2_token : option string -> option string -> result (list (string * string)))
  (build : Creds -> result Service)
  {Resp : Type} (call_next : GState -> result Resp).

(** Every run of [dispatch] ends with a call of the next handler and
    returns its outcome; when the next handler does not raise, that call
    is the only one. *)
Lemma dispatch_shape g0 db hdr r db' log x :
  dispatch APP_HOST get_credentials update_access_token from_authorized_user_info
    refresh verify_oauth2_token build call_next g0 db hdr = (r, db', log, x) ->
  (exists g pre, log = pre ++ [CallNext g] /\ r = call_next g) /\
  ((forall g, exists resp, call_next g = Ok resp) ->
   exists g pre resp, log = pre ++ [CallNext g] /\ no_call_next pre /\
     call_next g = Ok resp /\ r = Ok resp).
Proof.
  unfold dispatch.
  destruct (dispatch_body _ _ _ _ _ _ _ _ _ _ _) as [[[[r0 g] d] l] x0] eqn:B.
  apply body_shape in B.
  destruct r0 as [resp|e]; intros H; injection H; intros; subst.
  - destruct B as [(_ & e & E) | (pre & -> & Hpre & E)]; [discriminate|].
    split.
    + exists g, pre. split; [reflexivity | exact E].
    + intros _. exists g, pre, resp. auto.
  - split.
    + eexists _, l. split; reflexivity.
    + intros Tot. destruct B as [(Hl & _) | (pre & -> & Hpre & E)].
      * destruct (Tot (set_error_message (msg_outer APP_HOST) g)) as [resp E].
        eexists _, l, resp. auto.
      * destruct (Tot g) as [resp E']. congruence.
Qed.

End Outer.
End MiddlewareFacts.

(** ** Claims about the authentication middleware *)

Module MiddlewareClaims.
Import Py App Middleware MiddlewareFacts.

(** C4: whatever the credential store, the google-auth calls and the
    token endpoint do (raise included), a run of [dispatch] ends in one of
    its exit points having called the next handler, and returns that
    call's outcome; if the next handler does not raise, it is called
    exactly once, as the last step, and its response is returned. *)
Theorem C4_fail_open (APP_HOST : string) {DB : Type}
    (get_credentials : DB -> string -> result (option pydict))
    (update_access_token : DB -> string -> option string -> result DB)
    (from_authorized_user_info : pyval -> result Creds)
    (refresh : Creds -> result Creds)
    (verify_oauth2_token : option string -> option string -> result (list (string * string)))
    (build : Creds -> result Service)
    {Resp : Type} (call_next : GState -> result Resp)
    (g0 : GState) (db : DB) (hdr : option string)
    (r : result Resp) (db' : DB) (log : list (event DB)) (x : exit_point) :
  dispatch APP_HOST get_credentials update_access_token from_authorized_user_info
    refresh verify_oauth2_token build call_next g0 db hdr = (r, db', log, x) ->
  (exists g pre, log = pre ++ [CallNext g] /\ r = call_next g) /\
  ((forall g, exists resp, call_next g = Ok resp) ->
   exists g pre resp, log = pre ++ [CallNext g] /\
     Forall (fun ev => is_call_next ev = false) pre /\
     call_next g = Ok resp /\ r = Ok resp).
Proof. apply dispatch_shape. Qed.

Lemma C4_witness :
  exists g pre resp,
    [DbGetCredentials "tok-1";
     CallNext (mkGState false (Some (msg_auth_again Fixtures.host)) None None)]
      = pre ++ [@CallNext Fixtures.Store g] /\
    Forall (fun ev => is_call_next ev = false) pre /\
    Fixtures.next_tool g = Ok resp /\
    Ok (Some [("status", PStr "error"); ("error", PStr (msg_auth_again Fixtures.host))]) = Ok resp.
Proof.
  refine (proj2 (C4_fail_open Fixtures.host Fixtures.get_credentials_down
    Fixtures.update_access_token Fixtures.parse_expired Fixtures.refresh_ok
    Fixtures.verify_ok Fixtures.build_ok Fixtures.next_tool
    Fixtures.fresh Fixtures.store0 (Some "tok-1")
    (Ok (Some [("status", PStr "error"); ("error", PStr (msg_auth_again Fixtures.host))]))
    Fixtures.store0
    [DbGetCredentials "tok-1";
     CallNext (mkGState false (Some (msg_auth_again Fixtures.host)) None None)]
    StoreLookupFailed _) _).
  - vm_compute. reflexivity.
  - intros g. eexists. reflexivity.
Defined.

(** C5: for a stored credential that parses to an expired, not valid
    credential with a refresh token, when the refresh, the id-token
    verification and the store update succeed, [dispatch] writes the new
    access token under the verified ["sub"], ends in the store that update
    returned, exits [Valid], and calls the next handler once with the
    request marked authenticated and the new credentials and Gmail
    service attached. *)
Theorem C5_refresh_persists (APP_HOST : string) {DB : Type}
    (get_credentials : DB -> string -> result (option pydict))
    (update_access_token : DB -> string -> option string -> result DB)
    (from_authorized_user_info : pyval -> result Creds)
    (refresh : Creds -> result Creds)
    (verify_oauth2_token : option string -> option string -> result (list (string * string)))
    (build : Creds -> result Service)
    {Resp : Type} (call_next : GState -> result Resp)
    (g0 : GState) (db : DB) (tok : string) (cred : pydict) (credentials : pyval)
    (creds c1 : Creds) (id_info : list (string * string)) (sub : string)
    (db1 : DB) (svc : Service) :
  tok <> EmptyString ->
  get_credentials db tok = Ok (Some cred) ->
  has_key "error" cred = false ->
  get_key "credentials" cred = Some credentials ->
  from_authorized_user_info credentials = Ok creds ->
  cr_valid creds = false -> cr_expired creds = true -> truthy (cr_refresh_token creds) = true ->
  refresh (mkCreds None (cr_refresh_token creds) (cr_client_id creds) (cr_client_secret creds)
             (Some "https://oauth2.googleapis.com/token") None false false) = Ok c1 ->
  verify_oauth2_token (cr_id_token c1) (cr_client_id c1) = Ok id_info ->
  assoc "sub" id_info = Some sub ->
  update_access_token db sub (cr_token c1) = Ok db1 ->
  build c1 = Ok svc ->
  exists r rest,
    dispatch APP_HOST get_credentials update_access_token from_authorized_user_info
      refresh verify_oauth2_token build call_next g0 db (Some tok)
    = (r, db1,
       [DbGetCredentials tok; TokenRefresh; VerifyIdToken; DbUpdateAccessToken sub (cr_token c1);
        BuildService; CallNext (mkGState true (error_message g0) (Some c1) (Some svc))] ++ rest,
       Valid) /\
    (forall resp, call_next (mkGState true (error_message g0) (Some c1) (Some svc)) = Ok resp ->
       r = Ok resp /\ rest = []).
Proof.
  intros Ht Hget Herr Hcred Hparse Hval Hexp Hrt Hrefresh Hverify Hsub Hupd Hbuild.
  unfold dispatch, dispatch_body.
  assert (E : String.eqb tok EmptyString = false) by (apply String.eqb_neq; exact Ht).
  rewrite E, Hget, Herr, Hcred, Hparse, Hval, Hexp, Hrt. cbn [andb negb].
  unfold refresh_flow. rewrite Hrefresh, Hverify, Hsub, Hupd.
  unfold publish. rewrite Hbuild. unfold forward. cbn [app].
  change (set_is_authenticated true (set_services c1 svc (set_is_authenticated false g0)))
    with (mkGState true (error_message g0) (Some c1) (Some svc)).
  destruct (call_next (mkGState true (error_message g0) (Some c1) (Some svc))) as [resp|e] eqn:C.
  - exists (Ok resp), []. split.
    + reflexivity.
    + intros resp' E'. split; [congruence | reflexivity].
  - eexists _, [_]. split; [reflexivity|].
    intros resp' E'. discriminate.
Qed.

Lemma C5_witness :
  exists r rest,
    dispatch Fixtures.host Fixtures.get_credentials Fixtures.update_access_token
      Fixtures.parse_expired Fixtures.refresh_ok Fixtures.verify_ok Fixtures.build_ok
      Fixtures.next_tool Fixtures.fresh Fixtures.store0 (Some "tok-1")
    = (r, Fixtures.store1,
       [DbGetCredentials "tok-1"; TokenRefresh; VerifyIdToken;
        DbUpdateAccessToken "1234567890" (Some "ya29.new"); BuildService;
        CallNext (mkGState true None (Some Fixtures.refreshed)
                   (Some (mkService Fixtures.refreshed)))] ++ rest,
       Valid) /\
    (forall resp, Fixtures.next_tool (mkGState true None (Some Fixtures.refreshed)
                    (Some (mkService Fixtures.refreshed))) = Ok resp ->
       r = Ok resp /\ rest = []).
Proof.
  apply (C5_refresh_persists Fixtures.host Fixtures.get_credentials Fixtures.update_access_token
    Fixtures.parse_expired Fixtures.refresh_ok Fixtures.verify_ok Fixtures.build_ok
    Fixtures.next_tool Fixtures.fresh Fixtures.store0 "tok-1"
    [("credentials", PStr "{...}")] (PStr "{...}") Fixtures.expired_creds Fixtures.refreshed
    [("iss", "https://accounts.google.com"); ("sub", "1234567890")] "1234567890"
    Fixtures.store1 (mkService Fixtures.refreshed)).
  all: try discriminate.
  all: vm_compute; reflexivity.
Defined.

(** C7: when the stored record does not parse, [dispatch] forwards
    without setting an error message: on a fresh process the first tool
    sees no message and answers the generic ["User is not
    authenticated."]; after a request that came without the header, it
    surfaces that request's header message for a request that has the
    header. Every other degraded exit sets its own message, as the
    failed refresh does here. *)
Theorem C7_parse_failed_message :
  dispatch Fixtures.host Fixtures.get_credentials Fixtures.update_access_token
    Fixtures.parse_malformed Fixtures.refresh_ok Fixtures.verify_ok Fixtures.build_ok
    Fixtures.next_tool Fixtures.fresh Fixtures.store0 (Some "tok-1")
  = (Ok (Some [("status", PStr "error"); ("error", PStr "User is not authenticated.")]),
     Fixtures.store0, [DbGetCredentials "tok-1"; CallNext Fixtures.fresh], ParseFailed) /\
  dispatch Fixtures.host Fixtures.get_credentials Fixtures.update_access_token
    Fixtures.parse_malformed Fixtures.refresh_ok Fixtures.verify_ok Fixtures.build_ok
    Fixtures.next_tool Fixtures.after_no_header Fixtures.store0 (Some "tok-1")
  = (Ok (Some [("status", PStr "error"); ("error", PStr (msg_no_header Fixtures.host))]),
     Fixtures.store0, [DbGetCredentials "tok-1"; CallNext Fixtures.after_no_header],
     ParseFailed) /\
  dispatch Fixtures.host Fixtures.get_credentials Fixtures.update_access_token
    Fixtures.parse_expired Fixtures.refresh_down Fixtures.verify_ok Fixtures.build_ok
    Fixtures.next_tool Fixtures.fresh Fixtures.store0 (Some "tok-1")
  = (Ok (Some [("status", PStr "error"); ("error", PStr (msg_auth_again Fixtures.host))]),
     Fixtures.store0,
     [DbGetCredentials "tok-1"; TokenRefresh;
      CallNext (mkGState false (Some (msg_auth_again Fixtures.host)) None None)],
     RefreshFailed).
Proof. vm_compute. repeat split. Qed.

End MiddlewareClaims.

(* ------------------------------------------------------------------ *)
(** ** Batch label edits *)

Module LabelToolFacts.
Import Py App Reconcile LabelTools.

(** The new label set of a message after a [modify] with these lists. *)
Lemma modify_idem (remove add : list string) (ls : gset string) :
  (ls ∖ list_to_set remove ∪ list_to_set add) ∖ list_to_set remove ∪ list_to_set add
  = ls ∖ list_to_set remove ∪ list_to_set add.
Proof. set_solver. Qed.

Lemma modify_one_step remove add (mb : gmap string (gset string)) m ls :
  mb !! m = Some ls ->
  modify_one (gmap string (gset string)) gmail_modify remove add mb m =
    (Ok (<[m := ls ∖ list_to_set remove ∪ list_to_set add]> mb), [MessagesModify m remove add]).
Proof. intros E. unfold modify_one, gmail_modify. rewrite E. reflexivity. Qed.

Lemma modify_one_missing remove add (mb : gmap string (gset string)) m :
  mb !! m = None ->
  modify_one (gmap string (gset string)) gmail_modify remove add mb m =
    (Raise not_found, [MessagesModify m remove add]).
Proof. intros E. unfold modify_one, gmail_modify. rewrite E. reflexivity. Qed.

(** A loop of [modify] calls over ids the server knows: every listed
    message gets the update, the others keep their labels. *)
Lemma for_each_modify_ok remove add ids (mb : gmap string (gset string)) :
  (forall m, m ∈ ids -> is_Some (mb !! m)) ->
  exists mb',
    for_each (gmap string (gset string)) (modify_one _ gmail_modify remove add) ids mb =
      (mb', map (fun m => MessagesModify m remove add) ids, None) /\
    (forall m, m ∈ ids ->
       mb' !! m = (fun ls => ls ∖ list_to_set remove ∪ list_to_set add) <$> mb !! m) /\
    (forall m, m ∉ ids -> mb' !! m = mb !! m).
Proof.
  revert mb. induction ids as [|a rest IH]; intros mb H.
  - exists mb. split; [reflexivity|]. split; [intros m Hm; inversion Hm|reflexivity].
  - destruct (H a ltac:(left)) as [ls E].
    destruct (IH (<[a := ls ∖ list_to_set remove ∪ list_to_set add]> mb)) as (mb' & F & P1 & P2).
    { intros m Hm. destruct (decide (m = a)) as [->|Hne].
      - rewrite lookup_insert_eq. eauto.
      - rewrite lookup_insert_ne by congruence. apply H. right. exact Hm. }
    exists mb'. split; [|split].
    + cbn [for_each]. rewrite (modify_one_step _ _ _ _ _ E), F. reflexivity.
    + intros m Hm. destruct (decide (m ∈ rest)) as [Hr|Hr].
      * rewrite (P1 m Hr). destruct (decide (m = a)) as [->|Hne].
        -- rewrite lookup_insert_eq, E. simpl. rewrite modify_idem. reflexivity.
        -- rewrite lookup_insert_ne by congruence. reflexivity.
      * assert (m = a) as -> by (apply elem_of_cons in Hm; tauto).
        rewrite (P2 a Hr), lookup_insert_eq, E. reflexivity.
    + intros m Hm. rewrite elem_of_cons in Hm.
      rewrite (P2 m ltac:(tauto)), lookup_insert_ne by (intros ->; tauto). reflexivity.
Qed.

(** The same loop reaching an id the server does not know: the ids
    before it were updated, the loop stops there with a 404. *)
Lemma for_each_modify_fail remove add pre mid post (mb : gmap string (gset string)) :
  (forall m, m ∈ pre -> is_Some (mb !! m)) -> mb !! mid = None ->
  exists mb',
    for_each (gmap string (gset string)) (modify_one _ gmail_modify remove add)
      (pre ++ mid :: post) mb =
      (mb', map (fun m => MessagesModify m remove add) (pre ++ [mid]), Some (mid, not_found)) /\
    (forall m, m ∈ pre ->
       mb' !! m = (fun ls => ls ∖ list_to_set remove ∪ list_to_set add) <$> mb !! m) /\
    (forall m, m ∉ pre -> mb' !! m = mb !! m).
Proof.
  revert mb. induction pre as [|a rest IH]; intros mb H Hmid.
  - exists mb. split; [|split; [intros m Hm; inversion Hm|reflexivity]].
    cbn [for_each app]. rewrite (modify_one_missing _ _ _ _ Hmid). reflexivity.
  - destruct (H a ltac:(left)) as [ls E].
    assert (Hne : mid <> a) by (intros ->; congruence).
    destruct (IH (<[a := ls ∖ list_to_set remove ∪ list_to_set add]> mb)) as (mb' & F & P1 & P2).
    { intros m Hm. destruct (decide (m = a)) as [->|Hne'].
      - rewrite lookup_insert_eq. eauto.
      - rewrite lookup_insert_ne by congruence. apply H. right. exact Hm. }
    { rewrite lookup_insert_ne by congruence. exact Hmid. }
    exists mb'. split; [|split].
    + cbn [for_each app]. rewrite (modify_one_step _ _ _ _ _ E), F. reflexivity.
    + intros m Hm. destruct (decide (m ∈ rest)) as [Hr|Hr].
      * rewrite (P1 m Hr). destruct (decide (m = a)) as [->|Hne'].
        -- rewrite lookup_insert_eq, E. simpl. rewrite modify_idem. reflexivity.
        -- rewrite lookup_insert_ne by congruence. reflexivity.
      * assert (m = a) as -> by (apply elem_of_cons in Hm; tauto).
        rewrite (P2 a Hr), lookup_insert_eq, E. reflexivity.
    + intros m Hm. rewrite elem_of_cons in Hm.
      rewrite (P2 m ltac:(tauto)), lookup_insert_ne by (intros ->; tauto). reflexivity.
Qed.

Lemma list_to_set_single (x : string) : (list_to_set [x] : gset string) = {[x]}.
Proof. set_solver. Qed.

Lemma modify_calls_about r a (l : list string) :
  Forall2 (fun m c => about m c = true) l (map (fun m => MessagesModify m r a) l).
Proof.
  induction l as [|m l IH]; constructor; [|exact IH].
  apply (proj2 (ReconcileFacts.about_refl m)).
Qed.

Lemma omap_cons' {A B : Type} (f : A -> option B) (x : A) (l : list A) :
  omap f (x :: l) = match f x with Some y => y :: omap f l | None => omap f l end.
Proof. reflexivity. Qed.

Lemma omap_filter_some {A B : Type} (f : A -> option B) (l : list A) :
  omap f (List.filter (fun x => bool_decide (is_Some (f x))) l) = omap f l.
Proof.
  induction l as [|x l IH]; [reflexivity|]. cbn [List.filter].
  destruct (f x) as [b|] eqn:E.
  - rewrite bool_decide_eq_true_2 by eauto. rewrite !omap_cons', E, IH. reflexivity.
  - rewrite bool_decide_eq_false_2 by (intros [? ?]; discriminate). rewrite omap_cons', E.
    exact IH.
Qed.

Lemma omap_all_none {A B : Type} (f : A -> option B) (l : list A) :
  (forall x, x ∈ l -> f x = None) -> omap f l = [].
Proof.
  induction l as [|x l IH]; intros H; [reflexivity|]. simpl.
  rewrite (H x ltac:(left)). apply IH. intros y Hy. apply H. right. exact Hy.
Qed.

Lemma omap_some_cons {A B : Type} (f : A -> option B) (l : list A) x y :
  x ∈ l -> f x = Some y -> exists h t, omap f l = h :: t.
Proof.
  induction l as [|z l IH]; intros Hx Hf; [inversion Hx|]. simpl.
  destruct (f z) as [b|] eqn:E; [eauto|].
  apply elem_of_cons in Hx as [->|Hx]; [congruence|]. apply IH; assumption.
Qed.

End LabelToolFacts.

Module LabelToolClaims.
Import Py App Reconcile LabelTools LabelToolFacts.

(** Starring ([star_email=True]) or unstarring ([False]) messages the
    server knows: every listed message gains (or loses) STARRED, its other
    labels and the other messages are unchanged, one [modify] per id. *)
Theorem star_emails_effect APP_HOST error_details error_content g svc
    (mb : gmap string (gset string)) ids (b : bool) :
  is_authenticated g = true -> google_gmail_service g = Some svc ->
  (forall m, m ∈ ids -> is_Some (mb !! m)) ->
  exists mb',
    gmail_star_emails_tool _ gmail_modify APP_HOST error_details error_content g mb ids (Some b) =
      ([("status", PStr "success");
        ("message", PStr ("Emails marked as " ++ (if b then "starred" else "unstarred"))%string)],
       mb',
       map (fun m => MessagesModify m (if b then [] else ["STARRED"]) (if b then ["STARRED"] else [])) ids) /\
    (forall m, m ∈ ids ->
       mb' !! m = (fun ls => if b then ls ∪ {["STARRED"]} else ls ∖ {["STARRED"]}) <$> mb !! m) /\
    (forall m, m ∉ ids -> mb' !! m = mb !! m).
Proof.
  intros Ha Hs Hin. unfold gmail_star_emails_tool, check_access. rewrite Ha, Hs.
  destruct b; cbn [star_label_body];
    [ destruct (for_each_modify_ok [] ["STARRED"] _ _ Hin) as (mb' & F & P1 & P2)
    | destruct (for_each_modify_ok ["STARRED"] [] _ _ Hin) as (mb' & F & P1 & P2)];
    rewrite F; exists mb'; (split; [reflexivity|]); (split; [|exact P2]);
    intros m Hm; rewrite (P1 m Hm); destruct (mb !! m); simpl; try reflexivity;
    f_equal; set_solver.
Qed.

(** [star_email] omitted: every message gets a [modify] with an empty
    body, the mailbox does not change, and the answer says "unstarred". *)
Theorem star_emails_none APP_HOST error_details error_content g svc
    (mb : gmap string (gset string)) ids :
  is_authenticated g = true -> google_gmail_service g = Some svc ->
  (forall m, m ∈ ids -> is_Some (mb !! m)) ->
  gmail_star_emails_tool _ gmail_modify APP_HOST error_details error_content g mb ids None =
    ([("status", PStr "success"); ("message", PStr "Emails marked as unstarred")],
     mb, map (fun m => MessagesModify m [] []) ids).
Proof.
  intros Ha Hs Hin. unfold gmail_star_emails_tool, check_access. rewrite Ha, Hs.
  cbn [star_label_body].
  destruct (for_each_modify_ok [] [] _ _ Hin) as (mb' & F & P1 & P2). rewrite F.
  assert (mb' = mb) as ->.
  { apply map_eq. intros m. destruct (decide (m ∈ ids)) as [Hm|Hm]; [|exact (P2 m Hm)].
    rewrite (P1 m Hm). destruct (mb !! m); simpl; [f_equal; set_solver|reflexivity]. }
  reflexivity.
Qed.

(** Marking messages the server knows as read takes UNREAD off each of
    them, marking as unread puts it on; nothing else changes. *)
Theorem mark_emails_effect APP_HOST error_details error_content g svc
    (mb : gmap string (gset string)) ids (mark_as_read : bool) :
  is_authenticated g = true -> google_gmail_service g = Some svc ->
  (forall m, m ∈ ids -> is_Some (mb !! m)) ->
  exists mb',
    gmail_mark_emails_tool _ gmail_modify APP_HOST error_details error_content g mb ids mark_as_read =
      ([("status", PStr "success");
        ("message", PStr ("Emails marked as " ++ (if mark_as_read then "read" else "unread"))%string)],
       mb',
       map (fun m => MessagesModify m (if mark_as_read then ["UNREAD"] else [])
                                      (if mark_as_read then [] else ["UNREAD"])) ids) /\
    (forall m, m ∈ ids ->
       mb' !! m = (fun ls => if mark_as_read then ls ∖ {["UNREAD"]} else ls ∪ {["UNREAD"]}) <$> mb !! m) /\
    (forall m, m ∉ ids -> mb' !! m = mb !! m).
Proof.
  intros Ha Hs Hin. unfold gmail_mark_emails_tool, check_access. rewrite Ha, Hs.
  destruct mark_as_read;
    [ destruct (for_each_modify_ok ["UNREAD"] [] _ _ Hin) as (mb' & F & P1 & P2)
    | destruct (for_each_modify_ok [] ["UNREAD"] _ _ Hin) as (mb' & F & P1 & P2)];
    rewrite F; exists mb'; (split; [reflexivity|]); (split; [|exact P2]);
    intros m Hm; rewrite (P1 m Hm); destruct (mb !! m); simpl; try reflexivity;
    f_equal; set_solver.
Qed.

(** Marking unread and then read again gives back the mailbox, when none
    of the listed messages was unread before. *)
Theorem mark_unread_then_read APP_HOST error_details error_content g svc
    (mb : gmap string (gset string)) ids :
  is_authenticated g = true -> google_gmail_service g = Some svc ->
  (forall m, m ∈ ids -> exists ls, mb !! m = Some ls /\ "UNREAD" ∉ ls) ->
  (gmail_mark_emails_tool _ gmail_modify APP_HOST error_details error_content g
     (gmail_mark_emails_tool _ gmail_modify APP_HOST error_details error_content g mb ids false).1.2
     ids true).1.2 = mb.
Proof.
  intros Ha Hs Hin.
  assert (Hk : forall m, m ∈ ids -> is_Some (mb !! m)).
  { intros m Hm. destruct (Hin m Hm) as (ls & E & _). rewrite E. eauto. }
  unfold gmail_mark_emails_tool at 2, check_access. rewrite Ha, Hs.
  destruct (for_each_modify_ok [] ["UNREAD"] _ _ Hk) as (mb1 & F1 & P1 & P2). rewrite F1.
  cbn [fst snd].
  assert (Hk1 : forall m, m ∈ ids -> is_Some (mb1 !! m)).
  { intros m Hm. rewrite (P1 m Hm). destruct (Hk m Hm) as [ls E]. rewrite E. eauto. }
  unfold gmail_mark_emails_tool, check_access. rewrite Ha, Hs.
  destruct (for_each_modify_ok ["UNREAD"] [] _ _ Hk1) as (mb2 & F2 & Q1 & Q2). rewrite F2.
  cbn [fst snd]. apply map_eq. intros m.
  destruct (decide (m ∈ ids)) as [Hm|Hm]; [|rewrite Q2, P2 by exact Hm; reflexivity].
  rewrite (Q1 m Hm), (P1 m Hm). destruct (Hin m Hm) as (ls & E & Hu). rewrite E. simpl.
  f_equal. set_solver.
Qed.

(** Unmarking spam without a [new_label], or with an empty one, takes
    SPAM off every listed message and puts INBOX on it. *)
Theorem unspam_to_inbox APP_HOST error_details error_content g svc
    (mb : gmap string (gset string)) ids new_label :
  is_authenticated g = true -> google_gmail_service g = Some svc ->
  (forall m, m ∈ ids -> is_Some (mb !! m)) ->
  new_label = None \/ new_label = Some EmptyString ->
  exists mb',
    gmail_set_emails_as_spam_tool _ gmail_modify APP_HOST error_details error_content
      g mb ids false new_label =
      ([("status", PStr "success"); ("message", PStr "Emails marked as not spam")],
       mb', map (fun m => MessagesModify m ["SPAM"] ["INBOX"]) ids) /\
    (forall m, m ∈ ids -> mb' !! m = (fun ls => ls ∖ {["SPAM"]} ∪ {["INBOX"]}) <$> mb !! m) /\
    (forall m, m ∉ ids -> mb' !! m = mb !! m).
Proof.
  intros Ha Hs Hin Hn.
  assert (Hl : label_or_inbox new_label = "INBOX") by (destruct Hn as [->| ->]; reflexivity).
  unfold gmail_set_emails_as_spam_tool, check_access. rewrite Ha, Hs, Hl.
  destruct (for_each_modify_ok ["SPAM"] ["INBOX"] _ _ Hin) as (mb' & F & P1 & P2).
  rewrite F. exists mb'. split; [reflexivity|]. split; [|exact P2].
  intros m Hm. rewrite (P1 m Hm). destruct (mb !! m); simpl; [f_equal; set_solver|reflexivity].
Qed.

(** Marking as spam and then unmarking without a [new_label] restores the
    mailbox, when every listed message was in INBOX and not in SPAM. *)
Theorem spam_then_unspam APP_HOST error_details error_content g svc
    (mb : gmap string (gset string)) ids :
  is_authenticated g = true -> google_gmail_service g = Some svc ->
  (forall m, m ∈ ids -> exists ls, mb !! m = Some ls /\ "INBOX" ∈ ls /\ "SPAM" ∉ ls) ->
  (gmail_set_emails_as_spam_tool _ gmail_modify APP_HOST error_details error_content g
     (gmail_set_emails_as_spam_tool _ gmail_modify APP_HOST error_details error_content
        g mb ids true None).1.2
     ids false None).1.2 = mb.
Proof.
  intros Ha Hs Hin.
  assert (Hk : forall m, m ∈ ids -> is_Some (mb !! m)).
  { intros m Hm. destruct (Hin m Hm) as (ls & E & _). rewrite E. eauto. }
  unfold gmail_set_emails_as_spam_tool at 2, check_access. rewrite Ha, Hs.
  destruct (for_each_modify_ok [] ["SPAM"] _ _ Hk) as (mb1 & F1 & P1 & P2). rewrite F1.
  cbn [fst snd].
  assert (Hk1 : forall m, m ∈ ids -> is_Some (mb1 !! m)).
  { intros m Hm. rewrite (P1 m Hm). destruct (Hk m Hm) as [ls E]. rewrite E. eauto. }
  unfold gmail_set_emails_as_spam_tool, check_access. rewrite Ha, Hs.
  destruct (for_each_modify_ok ["SPAM"] [label_or_inbox None] _ _ Hk1) as (mb2 & F2 & Q1 & Q2).
  rewrite F2. cbn [fst snd]. apply map_eq. intros m.
  destruct (decide (m ∈ ids)) as [Hm|Hm]; [|rewrite Q2, P2 by exact Hm; reflexivity].
  rewrite (Q1 m Hm), (P1 m Hm). destruct (Hin m Hm) as (ls & E & Hi & Hsp). rewrite E. simpl.
  f_equal. unfold label_or_inbox. set_solver.
Qed.

(** A batch of star, mark or spam edits stops at the first message the
    server does not know: the answer is the 404 of the [except HttpError]
    handler, one [modify] call was made for each id up to that one, in
    order, and no message from that id on was changed. *)
Theorem label_batch_abort APP_HOST error_details error_content g svc
    (mb : gmap string (gset string)) pre mid post star_email mark_as_read mark_as_spam new_label :
  is_authenticated g = true -> google_gmail_service g = Some svc ->
  (forall m, m ∈ pre -> is_Some (mb !! m)) -> mb !! mid = None ->
  (let '(d, mb', log) := gmail_star_emails_tool _ gmail_modify APP_HOST error_details
       error_content g mb (pre ++ mid :: post) star_email in
   d = google_api_error error_details error_content "message" "Requested entity was not found." /\
   Forall2 (fun m c => about m c = true) (pre ++ [mid]) log /\
   forall m, m ∉ pre -> mb' !! m = mb !! m) /\
  (let '(d, mb', log) := gmail_mark_emails_tool _ gmail_modify APP_HOST error_details
       error_content g mb (pre ++ mid :: post) mark_as_read in
   d = google_api_error error_details error_content "error_message" "Requested entity was not found." /\
   Forall2 (fun m c => about m c = true) (pre ++ [mid]) log /\
   forall m, m ∉ pre -> mb' !! m = mb !! m) /\
  (let '(d, mb', log) := gmail_set_emails_as_spam_tool _ gmail_modify APP_HOST error_details
       error_content g mb (pre ++ mid :: post) mark_as_spam new_label in
   d = google_api_error error_details error_content "message" "Requested entity was not found." /\
   Forall2 (fun m c => about m c = true) (pre ++ [mid]) log /\
   forall m, m ∉ pre -> mb' !! m = mb !! m).
Proof.
  intros Ha Hs Hpre Hmid.
  unfold gmail_star_emails_tool, gmail_mark_emails_tool, gmail_set_emails_as_spam_tool,
    check_access.
  rewrite Ha, Hs. split; [|split].
  - destruct (star_label_body star_email) as [r a].
    destruct (for_each_modify_fail r a pre mid post mb Hpre Hmid) as (mb' & F & _ & P2).
    rewrite F. split; [reflexivity|]. split; [apply modify_calls_about|exact P2].
  - destruct (if mark_as_read then (["UNREAD"], []) else ([], ["UNREAD"])) as [r a].
    destruct (for_each_modify_fail r a pre mid post mb Hpre Hmid) as (mb' & F & _ & P2).
    rewrite F. split; [reflexivity|]. split; [apply modify_calls_about|exact P2].
  - destruct (if mark_as_spam then ([], ["SPAM"]) else (["SPAM"], [label_or_inbox new_label]))
      as [r a].
    destruct (for_each_modify_fail r a pre mid post mb Hpre Hmid) as (mb' & F & _ & P2).
    rewrite F. split; [reflexivity|]. split; [apply modify_calls_about|exact P2].
Qed.

(** Label names missing from the catalog are dropped without notice: the
    tool answers and acts as if only the known names had been passed. *)
Theorem manage_labels_unknown_dropped (Mailbox : Type) messages_modify APP_HOST error_msg
    g all_labels (mb : Mailbox) message_ids labels action :
  gmail_manage_labels_tool Mailbox messages_modify APP_HOST error_msg g (Ok all_labels)
    mb message_ids labels action =
  gmail_manage_labels_tool Mailbox messages_modify APP_HOST error_msg g (Ok all_labels)
    mb message_ids
    (List.filter (fun name => bool_decide (is_Some (label_name_to_id all_labels !! name))) labels)
    action.
Proof.
  unfold gmail_manage_labels_tool. cbv zeta.
  rewrite (omap_filter_some (fun name => label_name_to_id all_labels !! name)). reflexivity.
Qed.

(** No name matching the catalog: the tool fails before checking the
    action and calls nothing after the catalog fetch. *)
Theorem manage_labels_no_match (Mailbox : Type) messages_modify APP_HOST error_msg
    g svc all_labels (mb : Mailbox) message_ids labels action :
  is_authenticated g = true -> google_gmail_service g = Some svc ->
  (forall name, name ∈ labels -> label_name_to_id all_labels !! name = None) ->
  gmail_manage_labels_tool Mailbox messages_modify APP_HOST error_msg g (Ok all_labels)
    mb message_ids labels action =
  ([("status", PStr "error");
    ("error", PStr "None of the provided label names matched existing Gmail labels.")],
   mb, [LabelsList]).
Proof.
  intros Ha Hs Hn. unfold gmail_manage_labels_tool, check_access. rewrite Ha, Hs. cbv zeta.
  rewrite (omap_all_none (fun name => label_name_to_id all_labels !! name) labels Hn).
  reflexivity.
Qed.

(** An action other than "add" and "remove", with some name matching:
    the tool rejects it and modifies no message. *)
Theorem manage_labels_invalid_action (Mailbox : Type) messages_modify APP_HOST error_msg
    g svc all_labels (mb : Mailbox) message_ids labels action name label_id :
  is_authenticated g = true -> google_gmail_service g = Some svc ->
  name ∈ labels -> label_name_to_id all_labels !! name = Some label_id ->
  action <> "add" -> action <> "remove" ->
  gmail_manage_labels_tool Mailbox messages_modify APP_HOST error_msg g (Ok all_labels)
    mb message_ids labels action =
  ([("status", PStr "error"); ("error", PStr "Invalid action. Use 'add' or 'remove'.")],
   mb, [LabelsList]).
Proof.
  intros Ha Hs Hin Hl Hadd Hrem. unfold gmail_manage_labels_tool, check_access. rewrite Ha, Hs.
  cbv zeta.
  destruct (omap_some_cons (fun name => label_name_to_id all_labels !! name) labels name label_id
              Hin Hl) as (h & t & ->).
  destruct (String.eqb action "add");
    (rewrite bool_decide_eq_false_2;
     [reflexivity|rewrite elem_of_cons, elem_of_cons, elem_of_nil; tauto]).
Qed.

(** "add" or "remove" over messages the server knows, with [L] the ids of
    the names found: every listed message gains (or loses) all of [L], the
    others keep their labels. *)
Theorem manage_labels_effect APP_HOST error_msg g svc all_labels
    (mb : gmap string (gset string)) message_ids labels action L :
  is_authenticated g = true -> google_gmail_service g = Some svc ->
  (forall m, m ∈ message_ids -> is_Some (mb !! m)) ->
  omap (fun name => label_name_to_id all_labels !! name) labels = L -> L <> [] ->
  action = "add" \/ action = "remove" ->
  exists mb',
    gmail_manage_labels_tool _ gmail_modify APP_HOST error_msg g (Ok all_labels)
      mb message_ids labels action =
      ([("status", PStr "success");
        ("message", PStr ("Labels " ++ action ++ "ed to/from emails.")%string)],
       mb',
       LabelsList :: map (fun m => MessagesModify m (if String.eqb action "add" then [] else L)
                                                    (if String.eqb action "add" then L else []))
                         message_ids) /\
    (forall m, m ∈ message_ids ->
       mb' !! m = (fun ls => if String.eqb action "add" then ls ∪ list_to_set L
                             else ls ∖ list_to_set L) <$> mb !! m) /\
    (forall m, m ∉ message_ids -> mb' !! m = mb !! m).
Proof.
  intros Ha Hs Hin HL Hne Hact. unfold gmail_manage_labels_tool, check_access. rewrite Ha, Hs.
  cbv zeta. rewrite HL. destruct L as [|h t]; [congruence|].
  rewrite bool_decide_eq_true_2
    by (rewrite elem_of_cons, elem_of_cons; tauto).
  cbn [negb].
  destruct (String.eqb action "add");
    [ destruct (for_each_modify_ok [] (h :: t) _ _ Hin) as (mb' & F & P1 & P2)
    | destruct (for_each_modify_ok (h :: t) [] _ _ Hin) as (mb' & F & P1 & P2)];
    rewrite F; exists mb'; (split; [reflexivity|]); (split; [|exact P2]);
    intros m Hm; rewrite (P1 m Hm); destruct (mb !! m); simpl; try reflexivity;
    f_equal; set_solver.
Qed.

(** A message the server does not know stops the loop: the answer names
    that message, the calls went to the ids up to it in order, and no
    message from it on was changed. *)
Theorem manage_labels_abort APP_HOST error_msg g svc all_labels
    (mb : gmap string (gset string)) pre mid post labels action name label_id :
  is_authenticated g = true -> google_gmail_service g = Some svc ->
  (forall m, m ∈ pre -> is_Some (mb !! m)) -> mb !! mid = None ->
  name ∈ labels -> label_name_to_id all_labels !! name = Some label_id ->
  action = "add" \/ action = "remove" ->
  let '(d, mb', log) :=
    gmail_manage_labels_tool _ gmail_modify APP_HOST error_msg g (Ok all_labels)
      mb (pre ++ mid :: post) labels action in
  d = [("status", PStr "error"); ("message_id", PStr mid);
       ("error", PStr ("Google API error while " ++ action ++ "ing labels: "
                       ++ error_msg "Requested entity was not found.")%string)] /\
  (exists log', log = LabelsList :: log' /\
     Forall2 (fun m c => about m c = true) (pre ++ [mid]) log') /\
  forall m, m ∉ pre -> mb' !! m = mb !! m.
Proof.
  intros Ha Hs Hpre Hmid Hin Hl Hact. unfold gmail_manage_labels_tool, check_access.
  rewrite Ha, Hs. cbv zeta.
  destruct (omap_some_cons (fun name => label_name_to_id all_labels !! name) labels name label_id
              Hin Hl) as (h & t & ->).
  rewrite bool_decide_eq_true_2
    by (rewrite elem_of_cons, elem_of_cons; tauto).
  cbn [negb].
  destruct (if String.eqb action "add" then ([], h :: t) else (h :: t, [])) as [r a].
  destruct (for_each_modify_fail r a pre mid post mb Hpre Hmid) as (mb' & F & _ & P2).
  rewrite F. split; [reflexivity|]. split; [|exact P2].
  eexists; split; [reflexivity|apply modify_calls_about].
Qed.



(** The catalog lookup [{label["name"]: label["id"] ...}] finds an id for
    a name exactly when some label has that name and id and no later
    label has the same name: the last one wins. *)
Theorem label_name_to_id_last all_labels name i :
  label_name_to_id all_labels !! name = Some i <->
  exists pre l post, all_labels = pre ++ l :: post /\ label_name l = name /\
    label_id l = i /\ name ∉ map label_name post.
Proof.
  unfold label_name_to_id. induction all_labels as [|x all IH] using rev_ind.
  - simpl. rewrite lookup_empty. split; [discriminate|].
    intros (pre & l & post & E & _). destruct pre; discriminate.
  - rewrite fold_left_app. simpl. destruct (decide (label_name x = name)) as [<-|Hne].
    + rewrite lookup_insert_eq. split.
      * intros H. inversion H; subst. exists all, x, []. repeat split. intros Hc; inversion Hc.
      * intros (pre & l & post & E & Hn & Hi & Hp).
        destruct post as [|p post'] using rev_ind.
        -- apply app_inj_tail in E as [_ ->]. congruence.
        -- rewrite app_comm_cons, app_assoc in E. apply app_inj_tail in E as [_ ->].
           exfalso. apply Hp. rewrite map_app. apply elem_of_app. right. left.
    + rewrite lookup_insert_ne by exact Hne. rewrite IH. split.
      * intros (pre & l & post & E & Hn & Hi & Hp). exists pre, l, (post ++ [x]).
        split; [rewrite E, <- app_assoc; reflexivity|]. repeat split; [exact Hn|exact Hi|].
        rewrite map_app. intros Hc. apply elem_of_app in Hc as [Hc|Hc]; [contradiction|].
        apply list_elem_of_singleton in Hc. congruence.
      * intros (pre & l & post & E & Hn & Hi & Hp).
        destruct post as [|p post'] using rev_ind.
        -- apply app_inj_tail in E as [_ ->]. congruence.
        -- rewrite app_comm_cons, app_assoc in E. apply app_inj_tail in E as [E ->].
           exists pre, l, post'. repeat split; [exact E|exact Hn|exact Hi|].
           intros Hc. apply Hp. rewrite map_app. apply elem_of_app. left. exact Hc.
Qed.

End LabelToolClaims.

Module LabelToolWitnesses.
Import Py App Reconcile LabelTools LabelToolFacts LabelToolClaims Fixtures.

Ltac known_ids := intros ? Hm;
  repeat (apply elem_of_cons in Hm as [->|Hm]; [vm_compute; eexists; reflexivity|]);
  inversion Hm.

Lemma star_emails_effect_witness :
  exists mb',
    gmail_star_emails_tool _ gmail_modify host (fun r => r) (fun r => r) authed mailbox
      ["m1"; "m2"] (Some true) =
      ([("status", PStr "success");
        ("message", PStr ("Emails marked as " ++ "starred")%string)],
       mb', map (fun m => MessagesModify m [] ["STARRED"]) ["m1"; "m2"]) /\
    (forall m, m ∈ ["m1"; "m2"] -> mb' !! m = (fun ls => ls ∪ {["STARRED"]}) <$> mailbox !! m) /\
    (forall m, m ∉ ["m1"; "m2"] -> mb' !! m = mailbox !! m).
Proof.
  apply (star_emails_effect host (fun r => r) (fun r => r) authed (mkService some_creds)
           mailbox ["m1"; "m2"] true); [reflexivity|reflexivity|known_ids].
Defined.

Lemma star_emails_none_witness :
  gmail_star_emails_tool _ gmail_modify host (fun r => r) (fun r => r) authed mailbox
    ["m1"; "m2"] None =
    ([("status", PStr "success"); ("message", PStr "Emails marked as unstarred")],
     mailbox, map (fun m => MessagesModify m [] []) ["m1"; "m2"]).
Proof.
  apply (star_emails_none host (fun r => r) (fun r => r) authed (mkService some_creds)
           mailbox ["m1"; "m2"]); [reflexivity|reflexivity|known_ids].
Defined.

Lemma mark_emails_effect_witness :
  exists mb',
    gmail_mark_emails_tool _ gmail_modify host (fun r => r) (fun r => r) authed mailbox
      ["m2"] false =
      ([("status", PStr "success");
        ("message", PStr ("Emails marked as " ++ "unread")%string)],
       mb', map (fun m => MessagesModify m [] ["UNREAD"]) ["m2"]) /\
    (forall m, m ∈ ["m2"] -> mb' !! m = (fun ls => ls ∪ {["UNREAD"]}) <$> mailbox !! m) /\
    (forall m, m ∉ ["m2"] -> mb' !! m = mailbox !! m).
Proof.
  apply (mark_emails_effect host (fun r => r) (fun r => r) authed (mkService some_creds)
           mailbox ["m2"] false); [reflexivity|reflexivity|known_ids].
Defined.

Lemma mark_unread_then_read_witness :
  (gmail_mark_emails_tool _ gmail_modify host (fun r => r) (fun r => r) authed
     (gmail_mark_emails_tool _ gmail_modify host (fun r => r) (fun r => r) authed
        mailbox ["m1"; "m2"] false).1.2
     ["m1"; "m2"] true).1.2 = mailbox.
Proof.
  apply (mark_unread_then_read host (fun r => r) (fun r => r) authed (mkService some_creds)
           mailbox ["m1"; "m2"]); [reflexivity|reflexivity|].
  intros m Hm. apply elem_of_cons in Hm as [->|Hm].
  - exists {[ "INBOX"; "IMPORTANT" ]}. split; [reflexivity|set_solver].
  - apply elem_of_cons in Hm as [->|Hm]; [|inversion Hm].
    exists {[ "Label_1" ]}. split; [reflexivity|set_solver].
Defined.

Lemma unspam_to_inbox_witness :
  exists mb',
    gmail_set_emails_as_spam_tool _ gmail_modify host (fun r => r) (fun r => r)
      authed mailbox ["m2"] false (Some EmptyString) =
      ([("status", PStr "success"); ("message", PStr "Emails marked as not spam")],
       mb', map (fun m => MessagesModify m ["SPAM"] ["INBOX"]) ["m2"]) /\
    (forall m, m ∈ ["m2"] -> mb' !! m = (fun ls => ls ∖ {["SPAM"]} ∪ {["INBOX"]}) <$> mailbox !! m) /\
    (forall m, m ∉ ["m2"] -> mb' !! m = mailbox !! m).
Proof.
  apply (unspam_to_inbox host (fun r => r) (fun r => r) authed (mkService some_creds)
           mailbox ["m2"] (Some EmptyString)); [reflexivity|reflexivity|known_ids|right; reflexivity].
Defined.

Lemma spam_then_unspam_witness :
  (gmail_set_emails_as_spam_tool _ gmail_modify host (fun r => r) (fun r => r) authed
     (gmail_set_emails_as_spam_tool _ gmail_modify host (fun r => r) (fun r => r)
        authed mailbox ["m1"] true None).1.2
     ["m1"] false None).1.2 = mailbox.
Proof.
  apply (spam_then_unspam host (fun r => r) (fun r => r) authed (mkService some_creds)
           mailbox ["m1"]); [reflexivity|reflexivity|].
  intros m Hm. apply elem_of_cons in Hm as [->|Hm]; [|inversion Hm].
  exists {[ "INBOX"; "IMPORTANT" ]}. split; [reflexivity|set_solver].
Defined.

Lemma label_batch_abort_witness :
  (let '(d, mb', log) := gmail_star_emails_tool _ gmail_modify host (fun r => r)
       (fun r => r) authed mailbox (["m1"] ++ "m3" :: ["m2"]) (Some true) in
   d = google_api_error (fun r => r) (fun r => r) "message" "Requested entity was not found." /\
   Forall2 (fun m c => about m c = true) (["m1"] ++ ["m3"]) log /\
   forall m, m ∉ ["m1"] -> mb' !! m = mailbox !! m) /\
  (let '(d, mb', log) := gmail_mark_emails_tool _ gmail_modify host (fun r => r)
       (fun r => r) authed mailbox (["m1"] ++ "m3" :: ["m2"]) true in
   d = google_api_error (fun r => r) (fun r => r) "error_message" "Requested entity was not found." /\
   Forall2 (fun m c => about m c = true) (["m1"] ++ ["m3"]) log /\
   forall m, m ∉ ["m1"] -> mb' !! m = mailbox !! m) /\
  (let '(d, mb', log) := gmail_set_emails_as_spam_tool _ gmail_modify host (fun r => r)
       (fun r => r) authed mailbox (["m1"] ++ "m3" :: ["m2"]) false None in
   d = google_api_error (fun r => r) (fun r => r) "message" "Requested entity was not found." /\
   Forall2 (fun m c => about m c = true) (["m1"] ++ ["m3"]) log /\
   forall m, m ∉ ["m1"] -> mb' !! m = mailbox !! m).
Proof.
  apply (label_batch_abort host (fun r => r) (fun r => r) authed (mkService some_creds)
           mailbox ["m1"] "m3" ["m2"] (Some true) true false None);
    [reflexivity|reflexivity|known_ids|reflexivity].
Defined.

Lemma manage_labels_no_match_witness :
  gmail_manage_labels_tool _ gmail_modify host (fun r => r) authed (Ok labels)
    mailbox ["m1"] ["Personal"] "tag" =
  ([("status", PStr "error");
    ("error", PStr "None of the provided label names matched existing Gmail labels.")],
   mailbox, [LabelsList]).
Proof.
  apply (manage_labels_no_match _ gmail_modify host (fun r => r) authed (mkService some_creds)
           labels mailbox ["m1"] ["Personal"] "tag"); [reflexivity|reflexivity|].
  intros n Hn. apply elem_of_cons in Hn as [->|Hn]; [reflexivity|inversion Hn].
Defined.

Lemma manage_labels_invalid_action_witness :
  gmail_manage_labels_tool _ gmail_modify host (fun r => r) authed (Ok labels)
    mailbox ["m1"] ["Work"] "tag" =
  ([("status", PStr "error"); ("error", PStr "Invalid action. Use 'add' or 'remove'.")],
   mailbox, [LabelsList]).
Proof.
  apply (manage_labels_invalid_action _ gmail_modify host (fun r => r) authed
           (mkService some_creds) labels mailbox ["m1"] ["Work"] "tag" "Work" "Label_1");
    [reflexivity|reflexivity|left|reflexivity|discriminate|discriminate].
Defined.

Lemma manage_labels_effect_witness :
  exists mb',
    gmail_manage_labels_tool _ gmail_modify host (fun r => r) authed (Ok labels)
      mailbox ["m1"] ["Work"; "Personal"] "add" =
      ([("status", PStr "success");
        ("message", PStr ("Labels " ++ "add" ++ "ed to/from emails.")%string)],
       mb',
       LabelsList :: map (fun m => MessagesModify m (if String.eqb "add" "add" then [] else ["Label_1"])
                                                    (if String.eqb "add" "add" then ["Label_1"] else []))
                         ["m1"]) /\
    (forall m, m ∈ ["m1"] ->
       mb' !! m = (fun ls => if String.eqb "add" "add" then ls ∪ list_to_set ["Label_1"]
                             else ls ∖ list_to_set ["Label_1"]) <$> mailbox !! m) /\
    (forall m, m ∉ ["m1"] -> mb' !! m = mailbox !! m).
Proof.
  apply (manage_labels_effect host (fun r => r) authed (mkService some_creds) labels
           mailbox ["m1"] ["Work"; "Personal"] "add" ["Label_1"]);
    [reflexivity|reflexivity|known_ids|reflexivity|discriminate|left; reflexivity].
Defined.

Lemma manage_labels_abort_witness :
  let '(d, mb', log) :=
    gmail_manage_labels_tool _ gmail_modify host (fun r => r) authed (Ok labels)
      mailbox (["m1"] ++ "m3" :: ["m2"]) ["Travel"] "remove" in
  d = [("status", PStr "error"); ("message_id", PStr "m3");
       ("error", PStr ("Google API error while " ++ "remove" ++ "ing labels: "
                       ++ "Requested entity was not found.")%string)] /\
  (exists log', log = LabelsList :: log' /\
     Forall2 (fun m c => about m c = true) (["m1"] ++ ["m3"]) log') /\
  forall m, m ∉ ["m1"] -> mb' !! m = mailbox !! m.
Proof.
  apply (manage_labels_abort host (fun r => r) authed (mkService some_creds) labels mailbox
           ["m1"] "m3" ["m2"] ["Travel"] "remove" "Travel" "Label_2");
    [reflexivity|reflexivity|known_ids|reflexivity|left|reflexivity|right; reflexivity].
Defined.




End LabelToolWitnesses.
